(** * D&D character management server: mechanics engine and character store

    A shallow embedding of [dnd_server.py] and the properties of its dice
    roller, combat resolver, character calculator, character store and
    resource views.

    Conventions of the embedding:
    - Python [int] is [Z]; [//] with a positive divisor is [Z.div] (floor).
    - Python [str] is [string], read as a string of ASCII code points;
      [int(s)] follows the grammar of decimal literals (the interpreter's
      configurable cap on the number of digits is not modelled).
    - [random.randint] is an interface ([RandomSource]) threaded as state.
    - An exception is a value [exn] carrying its class and its message; a
      function that may raise lives in the state-and-exception monad [M].
    - The SQLite file is a table of rows keyed by [rowid]; connections and
      [Database] objects live in an explicit store so that object identity
      can be observed.  Failures of the storage engine itself (disk I/O, the
      engine's own limits) are outside the model. *)

From Stdlib Require Import ZArith List String Ascii Bool Lia.
From Stdlib Require Import DecimalString DecimalZ DecimalPos.
From Stdlib Require QArith Qround.
From stdpp Require Import gmap strings.
Import ListNotations.

Local Open Scope string_scope.
Local Open Scope Z_scope.

(* ===================================================================== *)
(** * Python built-ins used by the server *)
(* ===================================================================== *)

Module Py.

(** ** Exceptions *)

Inductive exn_class : Type :=
| ValueError
| AttributeError
| ProgrammingError   (* sqlite3.ProgrammingError *)
| OperationalError.  (* sqlite3.OperationalError *)

Record exn : Type := Exn { exn_cls : exn_class; exn_msg : string }.

Definition exn_class_eqb (a b : exn_class) : bool :=
  match a, b with
  | ValueError, ValueError | AttributeError, AttributeError
  | ProgrammingError, ProgrammingError
  | OperationalError, OperationalError => true
  | _, _ => false
  end.

Inductive Result (A : Type) : Type :=
| Ok (a : A)
| Raise (e : exn).
Arguments Ok {A} a.
Arguments Raise {A} e.

(** ** The state-and-exception monad.  A raised exception keeps the state
    reached so far, as in Python. *)

Definition M (S A : Type) : Type := S -> Result A * S.

Definition ret {S A} (a : A) : M S A := fun s => (Ok a, s).
Definition raise {S A} (e : exn) : M S A := fun s => (Raise e, s).
Definition bind {S A B} (m : M S A) (k : A -> M S B) : M S B :=
  fun s => match m s with
           | (Ok a, s') => k a s'
           | (Raise e, s') => (Raise e, s')
           end.
Definition lift {S A} (r : Result A) : M S A := fun s => (r, s).

(** [try: m  except cls as e: h e] *)
Definition try_except {S A} (m : M S A) (cls : exn_class)
           (h : exn -> M S A) : M S A :=
  fun s => match m s with
           | (Raise e, s') =>
               if exn_class_eqb (exn_cls e) cls then h e s'
               else (Raise e, s')
           | r => r
           end.

(** ** [str.lower] *)

Definition is_upper (c : ascii) : bool :=
  let n := N_of_ascii c in ((65 <=? n) && (n <=? 90))%N.

Definition chr_lower (c : ascii) : ascii :=
  if is_upper c then ascii_of_N (N_of_ascii c + 32) else c.

Fixpoint str_lower (s : string) : string :=
  match s with
  | EmptyString => EmptyString
  | String c r => String (chr_lower c) (str_lower r)
  end.

(** ** [str.split(sep)] for a one-character separator: one more piece
    than there are occurrences of [sep]; never the empty list. *)

Fixpoint str_split (sep : ascii) (s : string) : list string :=
  match s with
  | EmptyString => [EmptyString]
  | String c r =>
      if Ascii.eqb c sep then EmptyString :: str_split sep r
      else match str_split sep r with
           | h :: t => String c h :: t
           | [] => [String c EmptyString]
           end
  end.

(** ** [int(s)] in base 10.
    Grammar: optional white space, optional sign, one or more digits
    with single underscores allowed between digits, optional white
    space.  Anything else raises [ValueError]. *)

Definition is_space (c : ascii) : bool :=
  let n := N_of_ascii c in (((9 <=? n) && (n <=? 13)) || (n =? 32))%N.

Definition is_digit (c : ascii) : bool :=
  let n := N_of_ascii c in ((48 <=? n) && (n <=? 57))%N.

Definition digit_val (c : ascii) : Z := Z.of_N (N_of_ascii c) - 48.

Fixpoint skip_space (s : string) : string :=
  match s with
  | String c r => if is_space c then skip_space r else s
  | EmptyString => EmptyString
  end.

Fixpoint all_space (s : string) : bool :=
  match s with
  | String c r => is_space c && all_space r
  | EmptyString => true
  end.

(** Reads digits (and single underscores between digits) after a first
    digit whose value is in [acc]; returns the value and what follows,
    or [None] on a misplaced underscore. *)
Fixpoint scan_digits (acc : Z) (s : string) : option (Z * string) :=
  match s with
  | EmptyString => Some (acc, EmptyString)
  | String c r =>
      if is_digit c then scan_digits (10 * acc + digit_val c) r
      else if Ascii.eqb c "_" then
        match r with
        | String d r' =>
            if is_digit d then scan_digits (10 * acc + digit_val d) r'
            else None
        | EmptyString => None
        end
      else Some (acc, s)
  end.

Definition scan_unsigned (s : string) : option Z :=
  match s with
  | String c r =>
      if is_digit c then
        match scan_digits (digit_val c) r with
        | Some (v, rest) => if all_space rest then Some v else None
        | None => None
        end
      else None
  | EmptyString => None
  end.

Definition parse_int (s : string) : option Z :=
  match skip_space s with
  | String "+" r => scan_unsigned r
  | String "-" r => option_map Z.opp (scan_unsigned r)
  | t => scan_unsigned t
  end.

(** [repr(s)], exact for strings of printable characters that contain
    neither a quote nor a backslash. *)
Definition repr (s : string) : string := "'" +:+ s +:+ "'".

Definition int_of_str (s : string) : Result Z :=
  match parse_int s with
  | Some z => Ok z
  | None =>
      Raise (Exn ValueError
                 ("invalid literal for int() with base 10: " +:+ repr s))
  end.

(** ** [str(n)] and the format [{n:+d}] *)

Definition str_of_int (z : Z) : string :=
  NilZero.string_of_int (Z.to_int z).

Definition fmt_plus_d (z : Z) : string :=
  if 0 <=? z then "+" +:+ str_of_int z else str_of_int z.

(** ** [sum(xs)] *)
Definition sum (xs : list Z) : Z := fold_left Z.add xs 0.

(** ** [random.randint(a, b)]: for [a <= b] an integer in [[a, b]]. *)

Class RandomSource (G : Type) : Type := {
  randint : Z -> Z -> G -> Z * G;
  randint_range : forall a b g, a <= b -> a <= fst (randint a b g) <= b
}.

End Py.

Import Py.

Declare Scope py_scope.
Delimit Scope py_scope with py.
Notation "x <- m ;; k" := (bind m (fun x => k))
  (at level 20, m at level 99, k at level 200, only parsing) : py_scope.

Local Open Scope py_scope.

(* ===================================================================== *)
(** * Data models *)
(* ===================================================================== *)

(** [class Character(BaseModel)] *)
Record Character : Type := mkCharacter {
  id : option Z;
  name : string;
  character_class : string;
  level : Z;
  armor_class : Z;
  hit_points : Z;
  current_hp : Z;
  strength : Z;
  dexterity : Z;
  constitution : Z;
  intelligence : Z;
  wisdom : Z;
  charisma : Z
}.

(** [class AttackResult(BaseModel)] *)
Record AttackResult : Type := mkAttackResult {
  hit : bool;
  attack_total_of : Z;        (* field [attack_roll] *)
  damage : option Z;
  critical : bool;
  description : string
}.

(** [class DiceRoll(BaseModel)] *)
Record DiceRoll : Type := mkDiceRoll {
  dice_notation : string;
  individual_rolls : list Z;
  total : Z;
  modifier : Z
}.

(* ===================================================================== *)
(** * Tools: deterministic game mechanics *)
(* ===================================================================== *)

Section Mechanics.

Context {G : Type} `{RandomSource G}.

(** [[random.randint(1, num_sides) for _ in range(n)]] *)
Fixpoint roll_each (n : nat) (num_sides : Z) (g : G) : list Z * G :=
  match n with
  | O => ([], g)
  | S k =>
      let (x, g1) := randint 1 num_sides g in
      let (xs, g2) := roll_each k num_sides g1 in
      (x :: xs, g2)
  end.

(** The body of the [try] block of [roll_dice]. *)
Definition roll_dice_try (dice_notation : string) (modifier : Z)
  : M G DiceRoll :=
  let parts := str_split "d" (str_lower dice_notation) in
  match parts with
  | [p0; p1] =>
      num_dice <- lift (int_of_str p0) ;;
      num_sides <- lift (int_of_str p1) ;;
      if (num_dice <=? 0) || (num_sides <=? 0) then
        raise (Exn ValueError "Number of dice and sides must be positive")
      else if 20 <? num_dice then
        raise (Exn ValueError "Maximum 20 dice per roll")
      else
        fun g =>
          let (rolls, g') := roll_each (Z.to_nat num_dice) num_sides g in
          let total := sum rolls + modifier in
          (Ok (mkDiceRoll dice_notation rolls total modifier), g')
  | _ =>
      raise (Exn ValueError
               "Invalid dice notation. Use format like '1d20' or '2d6'")
  end.

(** [def roll_dice(dice_notation: str, modifier: int = 0) -> DiceRoll] *)
Definition roll_dice (dice_notation : string) (modifier : Z)
  : M G DiceRoll :=
  try_except (roll_dice_try dice_notation modifier) ValueError
    (fun e => raise (Exn ValueError ("Dice rolling error: " +:+ exn_msg e))).

(** [def attack_roll(attacker_bonus, target_ac, damage_dice="1d8",
    damage_bonus=0) -> AttackResult] *)
Definition attack_roll (attacker_bonus target_ac : Z) (damage_dice : string)
           (damage_bonus : Z) : M G AttackResult :=
  fun g =>
    let (attack_d20, g1) := randint 1 20 g in
    let attack_total := attack_d20 + attacker_bonus in
    let critical := attack_d20 =? 20 in
    let critical_miss := attack_d20 =? 1 in
    let hit := (target_ac <=? attack_total) || critical in
    let roll_line :=
      "Attack roll: " +:+ str_of_int attack_d20 +:+ " + "
        +:+ str_of_int attacker_bonus +:+ " = " +:+ str_of_int attack_total
        +:+ " vs AC " +:+ str_of_int target_ac +:+ "." in
    if hit && negb critical_miss then
      (damage_roll <- roll_dice damage_dice damage_bonus ;;
       if critical then
         crit_damage_roll <- roll_dice damage_dice 0 ;;
         let damage := total damage_roll + total crit_damage_roll in
         ret (mkAttackResult hit attack_total (Some damage) critical
                ("CRITICAL HIT! " +:+ roll_line +:+ " Damage: "
                   +:+ str_of_int damage))
       else
         let damage := total damage_roll in
         ret (mkAttackResult hit attack_total (Some damage) critical
                ("Hit! " +:+ roll_line +:+ " Damage: "
                   +:+ str_of_int damage))) g1
    else
      let description :=
        if critical_miss then "Critical Miss! Rolled natural 1."
        else "Miss! " +:+ roll_line in
      (Ok (mkAttackResult hit attack_total None critical description), g1).

End Mechanics.

(** [def calculate_modifier(ability_score: int) -> int] *)
Definition calculate_modifier (ability_score : Z) : Z :=
  (ability_score - 10) / 2.

(* ===================================================================== *)
(** * Database setup *)
(* ===================================================================== *)

(** One row of table [characters]: the thirteen columns in order. *)
Record Row : Type := mkRow {
  row_id : Z;
  row_name : string;
  row_character_class : string;
  row_level : Z;
  row_armor_class : Z;
  row_hit_points : Z;
  row_current_hp : Z;
  row_strength : Z;
  row_dexterity : Z;
  row_constitution : Z;
  row_intelligence : Z;
  row_wisdom : Z;
  row_charisma : Z
}.

(** The contents of one database file: the rows of [characters] in
    insertion order and the [AUTOINCREMENT] counter of the table. *)
Record Table : Type := mkTable {
  rows : list Row;
  seq : Z
}.

(** A [sqlite3.Connection]. *)
Record Connection : Type := mkConnection {
  conn_path : string;
  conn_closed : bool
}.

(** An instance of [class Database]. *)
Record Database : Type := mkDatabase {
  db_path : string;
  conn : option nat
}.

(** The state of the server process that the code can observe: database
    files by path, the connections and [Database] objects allocated so far
    (a reference is an index; allocation appends), the module global
    [_global_db], and the log messages sent to the client. *)
Record World : Type := mkWorld {
  files : gmap string Table;
  conns : list Connection;
  objs : list Database;
  _global_db : option nat;
  client_log : list string
}.

Definition set_files (f : gmap string Table) (w : World) : World :=
  mkWorld f (conns w) (objs w) (_global_db w) (client_log w).
Definition set_conns (c : list Connection) (w : World) : World :=
  mkWorld (files w) c (objs w) (_global_db w) (client_log w).
Definition set_objs (o : list Database) (w : World) : World :=
  mkWorld (files w) (conns w) o (_global_db w) (client_log w).
Definition set_global_db (g : option nat) (w : World) : World :=
  mkWorld (files w) (conns w) (objs w) g (client_log w).
Definition add_log (msg : string) (w : World) : World :=
  mkWorld (files w) (conns w) (objs w) (_global_db w) (client_log w ++ [msg]).

Definition default_db_path : string := "dnd_characters.db".

(** References are created by allocation only, hence always in range;
    the defaults below are never read by the server. *)
Definition deref_obj (self : nat) (w : World) : Database :=
  default (mkDatabase EmptyString None) (objs w !! self).
Definition deref_conn (c : nat) (w : World) : Connection :=
  default (mkConnection EmptyString true) (conns w !! c).

(** ** The [sqlite3] operations the server uses *)

(** [sqlite3.connect(path)] *)
Definition sqlite3_connect (path : string) : M World nat :=
  fun w => (Ok (length (conns w)),
            set_conns (conns w ++ [mkConnection path false]) w).

(** [conn.close()] *)
Definition sqlite3_close (c : nat) : M World unit :=
  fun w => (Ok tt,
            set_conns (<[c := mkConnection (conn_path (deref_conn c w)) true]>
                         (conns w)) w).

(** Every [self.conn.execute(...)] starts here: [self.conn] must be a
    connection and the connection must be open. *)
Definition open_conn (self : nat) : M World string :=
  fun w =>
    match conn (deref_obj self w) with
    | None =>
        (Raise (Exn AttributeError
                  "'NoneType' object has no attribute 'execute'"), w)
    | Some c =>
        if conn_closed (deref_conn c w) then
          (Raise (Exn ProgrammingError
                    "Cannot operate on a closed database."), w)
        else (Ok (conn_path (deref_conn c w)), w)
    end.

(** Reading table [characters] of the file at [path]. *)
Definition read_table (path : string) : M World Table :=
  fun w =>
    match files w !! path with
    | Some t => (Ok t, w)
    | None =>
        (Raise (Exn OperationalError "no such table: characters"), w)
    end.

Definition max_rowid (rs : list Row) : Z :=
  fold_right (fun r m => Z.max (row_id r) m) 0 rs.

(** The key an [INTEGER PRIMARY KEY AUTOINCREMENT] column gives the next
    inserted row: one more than the largest key the table ever held. *)
Definition next_rowid (t : Table) : Z := Z.max (seq t) (max_rowid (rows t)) + 1.

Definition character_of_row (row : Row) : Character :=
  mkCharacter (Some (row_id row)) (row_name row) (row_character_class row)
    (row_level row) (row_armor_class row) (row_hit_points row)
    (row_current_hp row) (row_strength row) (row_dexterity row)
    (row_constitution row) (row_intelligence row) (row_wisdom row)
    (row_charisma row).

(** ** [class Database] *)

(** [Database(db_path)] *)
Definition Database_init (path : string) : M World nat :=
  fun w => (Ok (length (objs w)),
            set_objs (objs w ++ [mkDatabase path None]) w).

(** [async def create_tables(self)]: [CREATE TABLE IF NOT EXISTS]. *)
Definition create_tables (self : nat) : M World unit :=
  path <- open_conn self ;;
  fun w =>
    match files w !! path with
    | Some _ => (Ok tt, w)
    | None => (Ok tt, set_files (<[path := mkTable [] 0]> (files w)) w)
    end.

(** [async def connect(self)] *)
Definition connect (self : nat) : M World nat :=
  fun w =>
    (c <- sqlite3_connect (db_path (deref_obj self w)) ;;
     _ <- (fun w1 =>
             (Ok tt,
              set_objs (<[self := mkDatabase (db_path (deref_obj self w1))
                                             (Some c)]> (objs w1)) w1)) ;;
     _ <- create_tables self ;;
     ret self) w.

(** [async def disconnect(self)] *)
Definition disconnect (self : nat) : M World unit :=
  fun w =>
    match conn (deref_obj self w) with
    | Some c => sqlite3_close c w
    | None => (Ok tt, w)
    end.

(** [async def save_character(self, character) -> int] *)
Definition save_character (self : nat) (character : Character) : M World Z :=
  path <- open_conn self ;;
  t <- read_table path ;;
  let lastrowid := next_rowid t in
  let row :=
    mkRow lastrowid (name character) (character_class character)
      (level character) (armor_class character) (hit_points character)
      (current_hp character) (strength character) (dexterity character)
      (constitution character) (intelligence character) (wisdom character)
      (charisma character) in
  fun w =>
    (Ok lastrowid,
     set_files (<[path := mkTable (rows t ++ [row]) lastrowid]> (files w)) w).

(** [async def get_character(self, character_id) -> Optional[Character]] *)
Definition get_character (self : nat) (character_id : Z)
  : M World (option Character) :=
  path <- open_conn self ;;
  t <- read_table path ;;
  match find (fun r => row_id r =? character_id) (rows t) with
  | Some row => ret (Some (character_of_row row))
  | None => ret None
  end.

(** [async def list_characters(self) -> List[Character]] *)
Definition list_characters (self : nat) : M World (list Character) :=
  path <- open_conn self ;;
  t <- read_table path ;;
  ret (map character_of_row (rows t)).

(** [class AppContext] *)
Record AppContext : Type := mkAppContext { db : nat }.

(** [app_lifespan], up to its [yield]. *)
Definition app_lifespan_enter : M World AppContext :=
  o <- Database_init default_db_path ;;
  db <- connect o ;;
  ret (mkAppContext db).

(** [app_lifespan], the [finally] block after its [yield]. *)
Definition app_lifespan_exit (ctx : AppContext) : M World unit :=
  disconnect (db ctx).

(* ===================================================================== *)
(** * Tools: characters *)
(* ===================================================================== *)

(** [async def create_character(name, character_class, level, strength,
    dexterity, constitution, intelligence, wisdom, charisma, ctx)] *)
Definition create_character (name character_class : string)
           (level strength dexterity constitution intelligence wisdom
              charisma : Z) (ctx : AppContext) : M World Character :=
  let con_modifier := calculate_modifier constitution in
  let hit_points := 10 + con_modifier + ((level - 1) * (6 + con_modifier)) in
  let dex_modifier := calculate_modifier dexterity in
  let armor_class := 10 + dex_modifier in
  let character :=
    mkCharacter None name character_class level armor_class hit_points
      hit_points strength dexterity constitution intelligence wisdom
      charisma in
  let db := db ctx in
  character_id <- save_character db character ;;
  let character :=
    mkCharacter (Some character_id) name character_class level armor_class
      hit_points hit_points strength dexterity constitution intelligence
      wisdom charisma in
  _ <- (fun w =>
          (Ok tt,
           add_log ("Created character: " +:+ name +:+ " (ID: "
                      +:+ str_of_int character_id +:+ ")") w)) ;;
  ret character.

(** [async def get_character_info(character_id, ctx) -> Character] *)
Definition get_character_info (character_id : Z) (ctx : AppContext)
  : M World Character :=
  let db := db ctx in
  character <- get_character db character_id ;;
  match character with
  | None =>
      raise (Exn ValueError
               ("Character with ID " +:+ str_of_int character_id
                  +:+ " not found"))
  | Some c => ret c
  end.

(* ===================================================================== *)
(** * Resources *)
(* ===================================================================== *)

(** [async def get_db()] *)
Definition get_db : M World nat :=
  fun w =>
    match _global_db w with
    | None =>
        (o <- Database_init default_db_path ;;
         d <- connect o ;;
         _ <- (fun w1 => (Ok tt, set_global_db (Some d) w1)) ;;
         ret d) w
    | Some d => (Ok d, w)
    end.

Definition nl : string := String (ascii_of_N 10) EmptyString.

Definition ability_line (label : string) (score : Z) : string :=
  "- " +:+ label +:+ ": " +:+ str_of_int score +:+ " ("
    +:+ fmt_plus_d (calculate_modifier score) +:+ ")" +:+ nl.

(** The text of the character sheet. *)
Definition sheet_text (character : Character) : string :=
  nl +:+ "# " +:+ name character +:+ " - Level "
     +:+ str_of_int (level character) +:+ " "
     +:+ character_class character +:+ nl
     +:+ nl
     +:+ "## Ability Scores" +:+ nl
     +:+ ability_line "Strength" (strength character)
     +:+ ability_line "Dexterity" (dexterity character)
     +:+ ability_line "Constitution" (constitution character)
     +:+ ability_line "Intelligence" (intelligence character)
     +:+ ability_line "Wisdom" (wisdom character)
     +:+ ability_line "Charisma" (charisma character)
     +:+ nl
     +:+ "## Combat Stats" +:+ nl
     +:+ "- Armor Class: " +:+ str_of_int (armor_class character) +:+ nl
     +:+ "- Hit Points: " +:+ str_of_int (current_hp character) +:+ "/"
     +:+ str_of_int (hit_points character) +:+ nl.

(** [async def get_character_sheet(character_id: str) -> str] *)
Definition get_character_sheet (character_id : string) : M World string :=
  try_except
    (char_id <- lift (int_of_str character_id) ;;
     db <- get_db ;;
     character <- get_character db char_id ;;
     match character with
     | None => ret ("Character " +:+ character_id +:+ " not found")
     | Some c => ret (sheet_text c)
     end)
    ValueError
    (fun _ => ret ("Invalid character ID: " +:+ character_id)).

Definition str_of_id (i : option Z) : string :=
  match i with
  | Some z => str_of_int z
  | None => "None"
  end.

(** [async def list_all_characters() -> str] *)
Definition list_all_characters : M World string :=
  db <- get_db ;;
  characters <- list_characters db ;;
  match characters with
  | [] => ret "No characters found."
  | _ =>
      ret (fold_left
             (fun result char =>
                result +:+ "- " +:+ name char +:+ " (ID: "
                  +:+ str_of_id (id char) +:+ ") - Level "
                  +:+ str_of_int (level char) +:+ " "
                  +:+ character_class char +:+ nl)
             characters ("# All Characters" +:+ nl +:+ nl))
  end.

(* ===================================================================== *)
(** * The server process *)
(* ===================================================================== *)

(** What a running server holds besides its world: the lifespan context,
    present between start-up and shut-down. *)
Record Process : Type := mkProcess {
  world : World;
  lifespan : option AppContext
}.

(** A fresh process: no connection, no object, [_global_db = None]; the
    database files are whatever earlier runs left on disk. *)
Definition boot (disk : gmap string Table) : Process :=
  mkProcess (mkWorld disk [] [] None []) None.

(** One step of the server: start-up, shut-down, or one request served
    while the lifespan context is live.  A request that raises still
    leaves its state behind. *)
Inductive step : Process -> Process -> Prop :=
| step_startup p ctx w :
    lifespan p = None ->
    app_lifespan_enter (world p) = (Ok ctx, w) ->
    step p (mkProcess w (Some ctx))
| step_shutdown p ctx r w :
    lifespan p = Some ctx ->
    app_lifespan_exit ctx (world p) = (r, w) ->
    step p (mkProcess w None)
| step_create_character p ctx nm cls lvl st dx cn it ws ch r w :
    lifespan p = Some ctx ->
    create_character nm cls lvl st dx cn it ws ch ctx (world p) = (r, w) ->
    step p (mkProcess w (Some ctx))
| step_get_character_info p ctx i r w :
    lifespan p = Some ctx ->
    get_character_info i ctx (world p) = (r, w) ->
    step p (mkProcess w (Some ctx))
| step_get_character_sheet p ctx s r w :
    lifespan p = Some ctx ->
    get_character_sheet s (world p) = (r, w) ->
    step p (mkProcess w (Some ctx))
| step_list_all_characters p ctx r w :
    lifespan p = Some ctx ->
    list_all_characters (world p) = (r, w) ->
    step p (mkProcess w (Some ctx)).

Inductive reachable : Process -> Prop :=
| reach_boot disk : reachable (boot disk)
| reach_step p q : reachable p -> step p q -> reachable q.


(* ===================================================================== *)
(** * Notions used to state the properties *)
(* ===================================================================== *)

(** A notation the dice roller must reject: its lower-case form does not
    split on [d] into exactly two parts, a part is not an integer, the
    number of dice or of sides is not positive, or there are more than
    twenty dice. *)
Inductive rejected_notation (s : string) : Prop :=
| rej_parts :
    length (str_split "d" (str_lower s)) <> 2%nat -> rejected_notation s
| rej_dice_not_int p0 p1 :
    str_split "d" (str_lower s) = [p0; p1] -> parse_int p0 = None ->
    rejected_notation s
| rej_sides_not_int p0 p1 :
    str_split "d" (str_lower s) = [p0; p1] -> parse_int p1 = None ->
    rejected_notation s
| rej_dice_nonpos p0 p1 n :
    str_split "d" (str_lower s) = [p0; p1] -> parse_int p0 = Some n ->
    n <= 0 -> rejected_notation s
| rej_sides_nonpos p0 p1 n :
    str_split "d" (str_lower s) = [p0; p1] -> parse_int p1 = Some n ->
    n <= 0 -> rejected_notation s
| rej_dice_over_cap p0 p1 n :
    str_split "d" (str_lower s) = [p0; p1] -> parse_int p0 = Some n ->
    20 < n -> rejected_notation s.

(** A store handle in working order: [h] is a [Database] object on the
    default path whose connection [c] is open, and the table exists. *)
Definition handle_ok (w : World) (h c : nat) : Prop :=
  objs w !! h = Some (mkDatabase default_db_path (Some c)) /\
  conns w !! c = Some (mkConnection default_db_path false) /\
  is_Some (files w !! default_db_path).


(** The files after [CREATE TABLE IF NOT EXISTS] at [path]. *)
Definition created (path : string) (fs : gmap string Table)
  : gmap string Table :=
  match fs !! path with
  | Some _ => fs
  | None => <[path := mkTable [] 0]> fs
  end.

(** The world after [Database().connect()]: one more object, one more
    connection, the table in place. *)
Definition opened (w : World) : World :=
  mkWorld (created default_db_path (files w))
          (conns w ++ [mkConnection default_db_path false])
          (objs w ++ [mkDatabase default_db_path (Some (length (conns w)))])
          (_global_db w) (client_log w).

(** The handle [get_db] returns and the world it leaves. *)
Definition resource_ref (w : World) : nat :=
  match _global_db w with
  | Some d => d
  | None => length (objs w)
  end.

Definition after_get_db (w : World) : World :=
  match _global_db w with
  | Some _ => w
  | None => set_global_db (Some (length (objs w))) (opened w)
  end.

(** The row [save_character] writes for [character] under key [i]. *)
Definition row_of (i : Z) (character : Character) : Row :=
  mkRow i (name character) (character_class character) (level character)
    (armor_class character) (hit_points character) (current_hp character)
    (strength character) (dexterity character) (constitution character)
    (intelligence character) (wisdom character) (charisma character).

(** The world after a row was appended to the table [t] of the default
    file and [msg] was logged. *)
Definition stored (t : Table) (row : Row) (w : World) : World :=
  set_files (<[default_db_path := mkTable (rows t ++ [row]) (row_id row)]>
               (files w)) w.

(** What holds of the two store handles in every state of the server. *)
Definition handles_inv (p : Process) : Prop :=
  match lifespan p, _global_db (world p) with
  | Some ctx, Some d =>
      exists c1 c2,
        handle_ok (world p) (db ctx) c1 /\ handle_ok (world p) d c2 /\
        db ctx <> d /\ c1 <> c2
  | Some ctx, None => exists c1, handle_ok (world p) (db ctx) c1
  | None, Some d => exists c2, handle_ok (world p) d c2
  | None, None => True
  end.

(** Two states of a server started on an empty disk: right after
    start-up, and after one resource read. *)
Definition started : Process :=
  mkProcess (opened (world (boot ∅))) (Some (mkAppContext 0)).

Definition visited : Process :=
  mkProcess (after_get_db (world started)) (Some (mkAppContext 0)).

(** The notation [NdS] written with decimal numerals. *)
Definition notation (n s : Z) : string :=
  str_of_int n +:+ "d" +:+ str_of_int s.

(** The value of a decimal numeral read after the prefix value [acc]. *)
Fixpoint uint_val (acc : Z) (d : Decimal.uint) : Z :=
  match d with
  | Decimal.Nil => acc
  | Decimal.D0 d => uint_val (10 * acc + 0) d
  | Decimal.D1 d => uint_val (10 * acc + 1) d
  | Decimal.D2 d => uint_val (10 * acc + 2) d
  | Decimal.D3 d => uint_val (10 * acc + 3) d
  | Decimal.D4 d => uint_val (10 * acc + 4) d
  | Decimal.D5 d => uint_val (10 * acc + 5) d
  | Decimal.D6 d => uint_val (10 * acc + 6) d
  | Decimal.D7 d => uint_val (10 * acc + 7) d
  | Decimal.D8 d => uint_val (10 * acc + 8) d
  | Decimal.D9 d => uint_val (10 * acc + 9) d
  end.

Fixpoint str_forallb (f : ascii -> bool) (s : string) : bool :=
  match s with
  | EmptyString => true
  | String c r => f c && str_forallb f r
  end.

(** Characters of a decimal numeral: a digit or the minus sign. *)
Definition numeral_char (c : ascii) : bool := is_digit c || Ascii.eqb c "-".

(** The sentence of an attack description that reports the roll. *)
Definition attack_line (d attacker_bonus target_ac : Z) : string :=
  "Attack roll: " +:+ str_of_int d +:+ " + " +:+ str_of_int attacker_bonus
    +:+ " = " +:+ str_of_int (d + attacker_bonus) +:+ " vs AC "
    +:+ str_of_int target_ac +:+ ".".

(** In every table the keys of the rows are pairwise different, as a
    primary key demands. *)
Definition files_unique (fs : gmap string Table) : Prop :=
  forall path t, fs !! path = Some t -> NoDup (map row_id (rows t)).

Definition keys_unique (w : World) : Prop := files_unique (files w).

(** The line [list_all_characters] writes for one character. *)
Definition character_line (char : Character) : string :=
  "- " +:+ name char +:+ " (ID: " +:+ str_of_id (id char) +:+ ") - Level "
    +:+ str_of_int (level char) +:+ " " +:+ character_class char +:+ nl.

Definition join (ls : list string) : string :=
  fold_right String.append EmptyString ls.

(** A server that has stored one character, with the row it holds, and
    the result of an attack that hits. *)
Definition populated : Process :=
  mkProcess
    (snd (create_character "Test Hero" "Fighter" 3 16 14 14 12 13 10
            (mkAppContext 0) (world started)))
    (Some (mkAppContext 0)).

Definition sample_row : Row :=
  mkRow 1 "Test Hero" "Fighter" 3 12 28 28 16 14 14 12 13 10.

Definition sample_table : Table := mkTable [sample_row] 1.

Definition sample_hit : AttackResult :=
  mkAttackResult true 10 (Some 10) false
    "Hit! Attack roll: 5 + 5 = 10 vs AC 3. Damage: 10".

(** A scripted random source: the draws are read off a list of raw
    integers, each reduced into the requested range. *)

Definition scripted_randint (a b : Z) (g : list Z) : Z * list Z :=
  match g with
  | x :: g' => (a + x mod (b - a + 1), g')
  | [] => (a, [])
  end.

#[export] Instance scripted : RandomSource (list Z) :=
  {| randint := scripted_randint;
     randint_range :=
       ltac:(intros a b [|x g] Hab; simpl;
             [lia | pose proof (Z.mod_pos_bound x (b - a + 1)); lia]) |}.

(* ===================================================================== *)
(** * Strings and integers *)
(* ===================================================================== *)

Section Numerals.

Lemma scan_digits_uint (d : Decimal.uint) :
  forall acc,
    scan_digits acc (NilEmpty.string_of_uint d) = Some (uint_val acc d, EmptyString).
Proof. induction d; intros acc; simpl; auto. Qed.

Lemma uint_val_pos (d : Decimal.uint) :
  forall acc : positive, uint_val (Z.pos acc) d = Z.pos (Pos.of_uint_acc d acc).
Proof.
  induction d; intros acc; simpl; auto;
    match goal with
    | |- uint_val ?a _ = Z.pos (Pos.of_uint_acc _ ?b) =>
        replace a with (Z.pos b) by lia; apply IHd
    end.
Qed.

Lemma uint_val_0 (d : Decimal.uint) : uint_val 0 d = Z.of_N (Pos.of_uint d).
Proof.
  induction d; simpl; auto;
    match goal with
    | |- uint_val ?a _ = _ =>
        let p := eval cbv in a in change a with p; apply uint_val_pos
    end.
Qed.

Lemma scan_unsigned_uint (d : Decimal.uint) :
  d <> Decimal.Nil ->
  scan_unsigned (NilEmpty.string_of_uint d) = Some (Z.of_N (Pos.of_uint d)).
Proof.
  intros Hd. rewrite <- uint_val_0.
  destruct d; [congruence | ..]; simpl; rewrite scan_digits_uint; reflexivity.
Qed.

Lemma skip_space_uint (d : Decimal.uint) :
  skip_space (NilEmpty.string_of_uint d) = NilEmpty.string_of_uint d.
Proof. destruct d; reflexivity. Qed.

Lemma parse_int_uint (d : Decimal.uint) :
  d <> Decimal.Nil ->
  parse_int (NilEmpty.string_of_uint d) = Some (Z.of_N (Pos.of_uint d)).
Proof.
  intros Hd. unfold parse_int. rewrite skip_space_uint.
  rewrite <- (scan_unsigned_uint d Hd).
  destruct d; [congruence | ..]; reflexivity.
Qed.

Lemma string_of_uint_nonnil (d : Decimal.uint) :
  d <> Decimal.Nil -> NilZero.string_of_uint d = NilEmpty.string_of_uint d.
Proof. destruct d; [congruence | reflexivity ..]. Qed.

(** [int(str(z)) = z] *)
Lemma parse_int_str_of_int (z : Z) : parse_int (str_of_int z) = Some z.
Proof.
  destruct z as [|p|p]; [reflexivity | ..]; unfold str_of_int; simpl;
    pose proof (Unsigned.to_uint_nonnil p) as Hn;
    rewrite string_of_uint_nonnil by exact Hn.
  - rewrite parse_int_uint by exact Hn. rewrite Unsigned.of_to. reflexivity.
  - unfold parse_int. simpl skip_space. cbv iota beta.
    rewrite scan_unsigned_uint by exact Hn.
    rewrite Unsigned.of_to. reflexivity.
Qed.

End Numerals.

Section Notation.

Lemma numeral_char_not_upper (c : ascii) :
  numeral_char c = true -> is_upper c = false.
Proof.
  destruct c as [[] [] [] [] [] [] [] []]; vm_compute; congruence.
Qed.

Lemma numeral_char_not_d (c : ascii) :
  numeral_char c = true -> Ascii.eqb c "d" = false.
Proof.
  destruct c as [[] [] [] [] [] [] [] []]; vm_compute; congruence.
Qed.

Lemma string_of_uint_numeral (d : Decimal.uint) :
  str_forallb numeral_char (NilEmpty.string_of_uint d) = true.
Proof. induction d; simpl; auto. Qed.

Lemma str_of_int_numeral (z : Z) : str_forallb numeral_char (str_of_int z) = true.
Proof.
  unfold str_of_int.
  destruct (Z.to_int z) as [d|d]; simpl; destruct d; simpl;
    auto using string_of_uint_numeral.
Qed.

Lemma str_lower_app (a b : string) :
  str_lower (a +:+ b) = str_lower a +:+ str_lower b.
Proof. induction a as [|c a IH]; simpl; [reflexivity | now rewrite IH]. Qed.

Lemma str_lower_numeral (s : string) :
  str_forallb numeral_char s = true -> str_lower s = s.
Proof.
  induction s as [|c s IH]; simpl; [reflexivity|].
  intros [Hc Hs]%andb_prop. rewrite (IH Hs). unfold chr_lower.
  now rewrite (numeral_char_not_upper c Hc).
Qed.

Lemma str_split_numeral (s : string) :
  str_forallb numeral_char s = true -> str_split "d" s = [s].
Proof.
  induction s as [|c s IH]; simpl; [reflexivity|].
  intros [Hc Hs]%andb_prop.
  rewrite (numeral_char_not_d c Hc), (IH Hs). reflexivity.
Qed.

Lemma str_split_numeral_d (s t : string) :
  str_forallb numeral_char s = true ->
  str_split "d" (s +:+ String "d" t) = s :: str_split "d" t.
Proof.
  induction s as [|c s IH]; simpl; [reflexivity|].
  intros [Hc Hs]%andb_prop.
  rewrite (numeral_char_not_d c Hc), (IH Hs). reflexivity.
Qed.

(** The decimal notation splits into its two numerals. *)
Lemma notation_parts (n s : Z) :
  str_split "d" (str_lower (notation n s)) = [str_of_int n; str_of_int s].
Proof.
  unfold notation. rewrite str_lower_app. simpl str_lower.
  rewrite !str_lower_numeral by apply str_of_int_numeral.
  change (chr_lower "d") with "d"%char.
  rewrite str_split_numeral_d by apply str_of_int_numeral.
  now rewrite str_split_numeral by apply str_of_int_numeral.
Qed.

End Notation.

(* ===================================================================== *)
(** * The dice roller *)
(* ===================================================================== *)

Section DiceRoller.

Context {G : Type} `{RandomSource G}.

Lemma roll_each_length (n : nat) (num_sides : Z) (g : G) :
  length (fst (roll_each n num_sides g)) = n.
Proof.
  revert g. induction n as [|n IH]; intros g; simpl; [reflexivity|].
  destruct (randint 1 num_sides g) as [x g1].
  specialize (IH g1). destruct (roll_each n num_sides g1) as [xs g2].
  simpl in *. now rewrite IH.
Qed.

Lemma roll_each_range (n : nat) (num_sides : Z) (g : G) :
  1 <= num_sides ->
  Forall (fun x => 1 <= x <= num_sides) (fst (roll_each n num_sides g)).
Proof.
  intros Hs. revert g. induction n as [|n IH]; intros g; simpl.
  - constructor.
  - pose proof (randint_range 1 num_sides g Hs) as Hx.
    destruct (randint 1 num_sides g) as [x g1].
    specialize (IH g1). destruct (roll_each n num_sides g1) as [xs g2].
    simpl in *. constructor; assumption.
Qed.

Lemma fold_left_add_shift (xs : list Z) :
  forall a, fold_left Z.add xs a = a + fold_right Z.add 0 xs.
Proof.
  induction xs as [|x xs IH]; intros a; simpl; [lia|]. rewrite IH. lia.
Qed.

(** [sum] adds from the left starting at 0; the order does not matter. *)
Lemma sum_fold_right (xs : list Z) : Py.sum xs = fold_right Z.add 0 xs.
Proof. unfold Py.sum. now rewrite fold_left_add_shift. Qed.

(** What [roll_dice] returns on a notation that passes every check. *)
Lemma roll_dice_accepts (s p0 p1 : string) (n k m : Z) (g : G) :
  str_split "d" (str_lower s) = [p0; p1] ->
  parse_int p0 = Some n -> parse_int p1 = Some k ->
  1 <= n <= 20 -> 1 <= k ->
  roll_dice s m g =
    (Ok (mkDiceRoll s (fst (roll_each (Z.to_nat n) k g))
           (Py.sum (fst (roll_each (Z.to_nat n) k g)) + m) m),
     snd (roll_each (Z.to_nat n) k g)).
Proof.
  intros Hs H0 H1 Hn Hk.
  unfold roll_dice, try_except, roll_dice_try. rewrite Hs.
  unfold bind, lift, int_of_str. rewrite H0, H1.
  destruct (Z.leb_spec n 0); [lia|]. destruct (Z.leb_spec k 0); [lia|].
  destruct (Z.ltb_spec 20 n); [lia|]. simpl.
  destruct (roll_each (Z.to_nat n) k g) as [rolls g']. reflexivity.
Qed.

(** A rejected notation raises [ValueError] before any die is drawn. *)
Lemma roll_dice_rejected (s : string) (m : Z) (g : G) :
  rejected_notation s ->
  exists msg, roll_dice s m g = (Raise (Exn ValueError msg), g).
Proof.
  intros Hr. unfold roll_dice, try_except, roll_dice_try.
  destruct Hr as [Hl | p0 p1 Hs H0 | p0 p1 Hs H1 | p0 p1 n Hs H0 Hn
                 | p0 p1 n Hs H1 Hn | p0 p1 n Hs H0 Hn].
  - destruct (str_split "d" (str_lower s)) as [|a [|b [|c l]]];
      simpl in Hl; try congruence; simpl; eauto.
  - rewrite Hs. unfold bind, lift, int_of_str. rewrite H0. simpl. eauto.
  - rewrite Hs. unfold bind, lift, int_of_str. rewrite H1.
    destruct (parse_int p0); simpl; eauto.
  - rewrite Hs. unfold bind, lift, int_of_str. rewrite H0.
    destruct (parse_int p1); simpl; eauto.
    destruct (Z.leb_spec n 0); [simpl; eauto | lia].
  - rewrite Hs. unfold bind, lift, int_of_str. rewrite H1.
    destruct (parse_int p0) as [n0|]; simpl; eauto.
    destruct (Z.leb_spec n 0); [|lia].
    rewrite orb_true_r. simpl. eauto.
  - rewrite Hs. unfold bind, lift, int_of_str. rewrite H0.
    destruct (parse_int p1) as [k|]; simpl; eauto.
    destruct ((n <=? 0) || (k <=? 0)); simpl; eauto.
    destruct (Z.ltb_spec 20 n); [simpl; eauto | lia].
Qed.

(** Only an accepted notation makes [roll_dice] return. *)
Lemma roll_dice_inv (s : string) (m : Z) (g g' : G) (r : DiceRoll) :
  roll_dice s m g = (Ok r, g') ->
  exists p0 p1 n k,
    str_split "d" (str_lower s) = [p0; p1] /\
    parse_int p0 = Some n /\ parse_int p1 = Some k /\
    1 <= n <= 20 /\ 1 <= k.
Proof.
  unfold roll_dice, try_except, roll_dice_try.
  destruct (str_split "d" (str_lower s)) as [|p0 [|p1 [|p2 l]]];
    simpl; try discriminate.
  unfold bind, lift, int_of_str.
  destruct (parse_int p0) as [n|] eqn:E0; simpl; [|discriminate].
  destruct (parse_int p1) as [k|] eqn:E1; simpl; [|discriminate].
  destruct (Z.leb_spec n 0); simpl; [discriminate|].
  destruct (Z.leb_spec k 0); simpl; [discriminate|].
  destruct (Z.ltb_spec 20 n); simpl; [discriminate|].
  intros _. exists p0, p1, n, k.
  split; [reflexivity|]. split; [exact E0|]. split; [exact E1|]. lia.
Qed.

(** C2. For every notation [NdS] with [1 <= N <= 20] and [S >= 1] and
    every integer modifier [m], [roll_dice] succeeds; the roll it returns
    has exactly [N] individual rolls, each in [[1, S]], and its total is
    the sum of the individual rolls plus [m]. *)
Theorem roll_dice_valid_notation (n k m : Z) (g : G) :
  1 <= n <= 20 -> 1 <= k ->
  exists r g',
    roll_dice (notation n k) m g = (Ok r, g') /\
    Z.of_nat (length (individual_rolls r)) = n /\
    Forall (fun x => 1 <= x <= k) (individual_rolls r) /\
    total r = fold_right Z.add 0 (individual_rolls r) + m.
Proof.
  intros Hn Hk. eexists. eexists. split.
  - apply (roll_dice_accepts _ (str_of_int n) (str_of_int k) n k);
      auto using notation_parts, parse_int_str_of_int.
  - simpl. rewrite roll_each_length, sum_fold_right.
    split; [lia|]. split; [|reflexivity]. now apply roll_each_range.
Qed.

(** C3. [roll_dice] fails with a validation error ([ValueError]), and
    returns no roll, on each of ["0d6"], ["2d0"], ["21d6"], ["d6"], ["2d"]
    and ["abc"], and on every notation that does not split on [d] into
    exactly two integer parts or has [N <= 0], [S <= 0] or [N > 20]. *)
Theorem roll_dice_rejects (s : string) (m : Z) (g : G) :
  In s ["0d6"; "2d0"; "21d6"; "d6"; "2d"; "abc"] \/ rejected_notation s ->
  exists msg, roll_dice s m g = (Raise (Exn ValueError msg), g).
Proof.
  intros [Hin | Hr]; [|now apply roll_dice_rejected].
  simpl in Hin.
  repeat (destruct Hin as [<- | Hin]; [eexists; reflexivity|]).
  contradiction.
Qed.

(** C7 (as the code has it). Whenever [roll_dice] returns, the
    [dice_notation] field of the roll is the notation exactly as it was
    passed in, letter case included; it is not rewritten to lower case. *)
Theorem roll_dice_notation_echo (s : string) (m : Z) (g g' : G) (r : DiceRoll) :
  roll_dice s m g = (Ok r, g') -> dice_notation r = s.
Proof.
  unfold roll_dice, try_except, roll_dice_try.
  destruct (str_split "d" (str_lower s)) as [|p0 [|p1 [|p2 l]]];
    simpl; try discriminate.
  unfold bind, lift, int_of_str.
  destruct (parse_int p0) as [n|]; simpl; [|discriminate].
  destruct (parse_int p1) as [k|]; simpl; [|discriminate].
  destruct ((n <=? 0) || (k <=? 0)); simpl; [discriminate|].
  destruct (20 <? n); simpl; [discriminate|].
  destruct (roll_each (Z.to_nat n) k g) as [rolls g2].
  now intros [= <- _].
Qed.

End DiceRoller.

Lemma roll_dice_valid_notation_witness :
  1 <= 2 <= 20 /\ 1 <= 6 /\
  exists r g',
    roll_dice (notation 2 6) 3 [0; 7; 9] = (Ok r, g') /\
    Z.of_nat (length (individual_rolls r)) = 2 /\
    Forall (fun x => 1 <= x <= 6) (individual_rolls r) /\
    total r = fold_right Z.add 0 (individual_rolls r) + 3.
Proof.
  split; [lia|]. split; [lia|].
  apply (roll_dice_valid_notation 2 6 3 [0; 7; 9]); lia.
Defined.

Lemma roll_dice_rejects_witness :
  (In "21d6" ["0d6"; "2d0"; "21d6"; "d6"; "2d"; "abc"]
   \/ rejected_notation "21d6") /\
  exists msg, roll_dice "21d6" 0 [4; 4] = (Raise (Exn ValueError msg), [4; 4]).
Proof.
  assert (Hin : In "21d6" ["0d6"; "2d0"; "21d6"; "d6"; "2d"; "abc"]
                \/ rejected_notation "21d6").
  { left. simpl. auto. }
  split; [exact Hin|].
  exact (roll_dice_rejects "21d6" 0 [4; 4] Hin).
Defined.

(** C7, as stated, fails: the upper-case notation ["2D6"] is valid, and
    the roll returned for it carries ["2D6"], which is neither its
    lower-case form nor the decimal notation of two six-sided dice. *)
Lemma roll_dice_notation_not_normalized :
  exists r g',
    roll_dice "2D6" 0 [0; 0] = (Ok r, g') /\
    dice_notation r <> str_lower "2D6" /\
    dice_notation r <> notation 2 6.
Proof.
  eexists. eexists. split; [reflexivity|].
  split; vm_compute; discriminate.
Qed.

Lemma roll_dice_notation_echo_witness :
  roll_dice "2D6" 0 [0; 0] = (Ok (mkDiceRoll "2D6" [1; 1] 2 0), []) /\
  dice_notation (mkDiceRoll "2D6" [1; 1] 2 0) = "2D6".
Proof.
  split; [reflexivity|].
  exact (roll_dice_notation_echo "2D6" 0 [0; 0] [] _ eq_refl).
Defined.

(* ===================================================================== *)
(** * The character calculator *)
(* ===================================================================== *)

(** C4. For every integer score, [calculate_modifier score] is the
    mathematical floor of the rational [(score - 10) / 2], that is the
    integer [q] with [2 q <= score - 10 < 2 q + 2]; in particular scores
    10, 9, 20 and 3 give 0, -1, 5 and -4. *)
Theorem calculate_modifier_floor (score : Z) :
  calculate_modifier score =
    Qround.Qfloor
      (QArith_base.Qdiv
         (QArith_base.Qminus (QArith_base.inject_Z score)
                             (QArith_base.inject_Z 10))
         (QArith_base.inject_Z 2)) /\
  2 * calculate_modifier score <= score - 10 < 2 * calculate_modifier score + 2 /\
  calculate_modifier 10 = 0 /\
  calculate_modifier 9 = -1 /\
  calculate_modifier 20 = 5 /\
  calculate_modifier 3 = -4.
Proof.
  unfold calculate_modifier. split.
  - cbv [Qround.Qfloor QArith_base.Qdiv QArith_base.Qminus QArith_base.Qmult
         QArith_base.Qplus QArith_base.Qopp QArith_base.Qinv
         QArith_base.inject_Z QArith_base.Qnum QArith_base.Qden].
    f_equal; lia.
  - split; [|repeat split; reflexivity].
    pose proof (Z.div_mod (score - 10) 2 ltac:(lia)).
    pose proof (Z.mod_pos_bound (score - 10) 2 ltac:(lia)).
    lia.
Qed.

(* ===================================================================== *)
(** * The combat resolver *)
(* ===================================================================== *)

Section CombatResolver.

Context {G : Type} `{RandomSource G}.

(** What [attack_roll] returns when the d20 shows 1. *)
Lemma attack_roll_natural_1 (attacker_bonus target_ac : Z)
      (damage_dice : string) (damage_bonus : Z) (g : G) :
  fst (randint 1 20 g) = 1 ->
  attack_roll attacker_bonus target_ac damage_dice damage_bonus g =
    (Ok (mkAttackResult (target_ac <=? 1 + attacker_bonus)
           (1 + attacker_bonus) None false
           "Critical Miss! Rolled natural 1."),
     snd (randint 1 20 g)).
Proof.
  intros Hd. unfold attack_roll.
  destruct (randint 1 20 g) as [d g1]. simpl in Hd. subst d. simpl.
  rewrite andb_false_r, orb_false_r. reflexivity.
Qed.

(** The damage roll of an attack fails only by the notation. *)
Lemma roll_dice_again (s : string) (m m' : Z) (g g1 g' : G) (r : DiceRoll) :
  roll_dice s m g = (Ok r, g1) ->
  exists r' g2,
    roll_dice s m' g' = (Ok r', g2) /\
    total r' = fold_right Z.add 0 (individual_rolls r') + m'.
Proof.
  intros (p0 & p1 & n & k & Hs & H0 & H1 & Hn & Hk)%roll_dice_inv.
  eexists. eexists. split.
  - apply (roll_dice_accepts s p0 p1 n k); assumption.
  - simpl. now rewrite sum_fold_right.
Qed.

Lemma roll_dice_total (s : string) (m : Z) (g g1 : G) (r : DiceRoll) :
  roll_dice s m g = (Ok r, g1) ->
  total r = fold_right Z.add 0 (individual_rolls r) + m.
Proof.
  intros Hr.
  destruct (roll_dice_inv _ _ _ _ _ Hr)
    as (p0 & p1 & n & k & Hs & H0 & H1 & Hn & Hk).
  rewrite (roll_dice_accepts s p0 p1 n k m g Hs H0 H1 Hn Hk) in Hr.
  injection Hr as <- _. simpl. now rewrite sum_fold_right.
Qed.

(** C5. When the d20 shows 20 the attack hits whatever the attacker bonus
    and the target AC are, and (the damage notation being one the dice
    roller accepts) its damage is the total of one damage roll with
    [damage_bonus] plus the total of a second roll of the same notation
    with bonus 0: the dice are counted twice, the flat bonus once. *)
Theorem attack_roll_natural_20 (attacker_bonus target_ac : Z)
        (damage_dice : string) (damage_bonus : Z) (g g2 : G) (r1 : DiceRoll) :
  fst (randint 1 20 g) = 20 ->
  roll_dice damage_dice damage_bonus (snd (randint 1 20 g)) = (Ok r1, g2) ->
  exists r2 g3 a,
    roll_dice damage_dice 0 g2 = (Ok r2, g3) /\
    attack_roll attacker_bonus target_ac damage_dice damage_bonus g
      = (Ok a, g3) /\
    hit a = true /\ critical a = true /\
    damage a = Some (total r1 + total r2) /\
    total r1 + total r2 =
      fold_right Z.add 0 (individual_rolls r1)
      + fold_right Z.add 0 (individual_rolls r2) + damage_bonus.
Proof.
  intros Hd Hr1.
  destruct (roll_dice_again damage_dice damage_bonus 0 _ g2 g2 r1 Hr1)
    as (r2 & g3 & Hr2 & Ht2).
  pose proof (roll_dice_total _ _ _ _ _ Hr1) as Ht1.
  exists r2, g3. unfold attack_roll.
  destruct (randint 1 20 g) as [d g1]. simpl in Hd, Hr1. subst d. simpl.
  eexists. split; [exact Hr2|].
  rewrite orb_true_r. simpl. unfold bind. rewrite Hr1, Hr2. simpl.
  split; [reflexivity|]. simpl.
  split; [reflexivity|]. split; [reflexivity|]. split; [reflexivity|]. lia.
Qed.

(** A damage notation the dice roller rejects makes the attack fail with
    the dice roller's error, also on a natural 20. *)
Lemma attack_roll_natural_20_bad_dice (attacker_bonus target_ac : Z)
      (damage_dice : string) (damage_bonus : Z) (g : G) :
  fst (randint 1 20 g) = 20 ->
  rejected_notation damage_dice ->
  exists msg,
    attack_roll attacker_bonus target_ac damage_dice damage_bonus g
      = (Raise (Exn ValueError msg), snd (randint 1 20 g)).
Proof.
  intros Hd Hr. unfold attack_roll.
  destruct (randint 1 20 g) as [d g1]. simpl in Hd. subst d. simpl.
  rewrite orb_true_r. simpl. unfold bind.
  destruct (roll_dice_rejected damage_dice damage_bonus g1 Hr) as [msg Hm].
  rewrite Hm. eauto.
Qed.

End CombatResolver.

(** C1 (the code departs from it). With attacker bonus 5 against AC 3 and
    a d20 showing 1, [attack_roll] reports a critical miss without damage
    and yet returns [hit = true]. *)
Theorem attack_roll_natural_1_reports_hit :
  fst (randint 1 20 [0]) = 1 /\
  attack_roll 5 3 "1d8" 0 [0] =
    (Ok (mkAttackResult true 6 None false "Critical Miss! Rolled natural 1."),
     []).
Proof. split; reflexivity. Qed.

Lemma attack_roll_natural_20_witness :
  fst (randint 1 20 [19; 7; 9]) = 20 /\
  roll_dice "1d8" 2 (snd (randint 1 20 [19; 7; 9]))
    = (Ok (mkDiceRoll "1d8" [8] 10 2), [9]) /\
  exists r2 g3 a,
    roll_dice "1d8" 0 [9] = (Ok r2, g3) /\
    attack_roll 5 30 "1d8" 2 [19; 7; 9] = (Ok a, g3) /\
    hit a = true /\ critical a = true /\
    damage a = Some (total (mkDiceRoll "1d8" [8] 10 2) + total r2) /\
    total (mkDiceRoll "1d8" [8] 10 2) + total r2 =
      fold_right Z.add 0 (individual_rolls (mkDiceRoll "1d8" [8] 10 2))
      + fold_right Z.add 0 (individual_rolls r2) + 2.
Proof.
  split; [reflexivity|]. split; [reflexivity|].
  exact (attack_roll_natural_20 5 30 "1d8" 2 [19; 7; 9] [9]
           (mkDiceRoll "1d8" [8] 10 2) eq_refl eq_refl).
Defined.

(* ===================================================================== *)
(** * The character store *)
(* ===================================================================== *)

Section Store.

Implicit Types (w : World) (h c : nat) (t : Table).

Lemma created_is_Some (path : string) (fs : gmap string Table) :
  is_Some (created path fs !! path).
Proof.
  unfold created. destruct (fs !! path) eqn:E.
  - rewrite E. eauto.
  - rewrite lookup_insert_eq. eauto.
Qed.

Lemma list_insert_snoc {A : Type} (l : list A) (x y : A) :
  <[length l := y]> (l ++ [x])%list = (l ++ [y])%list.
Proof.
  replace (length l) with (length l + 0)%nat at 1 by lia.
  now rewrite insert_app_r.
Qed.

(** [Database().connect()] returns a fresh object in working order. *)
Lemma open_database w :
  bind (Database_init default_db_path) connect w
  = (Ok (length (objs w)), opened w).
Proof.
  unfold bind, Database_init, connect, bind, sqlite3_connect, create_tables,
    bind, open_conn, ret, deref_obj, deref_conn.
  destruct w as [fs cs os gd lg]. simpl.
  repeat (rewrite ?list_insert_snoc, ?list_lookup_middle by reflexivity; simpl).
  unfold opened, created, set_files. simpl.
  destruct (fs !! default_db_path); reflexivity.
Qed.

Lemma opened_handle_ok w :
  handle_ok (opened w) (length (objs w)) (length (conns w)).
Proof.
  unfold handle_ok, opened. simpl.
  rewrite !list_lookup_middle by reflexivity.
  auto using created_is_Some.
Qed.

Lemma opened_keeps_handle w h c :
  handle_ok w h c -> handle_ok (opened w) h c.
Proof.
  intros (Ho & Hc & Hf). unfold handle_ok, opened. simpl.
  rewrite !lookup_app_l by (eapply lookup_lt_Some; eassumption).
  auto using created_is_Some.
Qed.

Lemma handle_ok_lt w h c :
  handle_ok w h c -> (h < length (objs w))%nat /\ (c < length (conns w))%nat.
Proof.
  intros (Ho & Hc & _). split; eapply lookup_lt_Some; eassumption.
Qed.

Lemma open_conn_ok w h c :
  handle_ok w h c -> open_conn h w = (Ok default_db_path, w).
Proof.
  intros (Ho & Hc & _). unfold open_conn, deref_obj, deref_conn.
  rewrite Ho. simpl. rewrite Hc. reflexivity.
Qed.

(** [get_character] only reads. *)
Lemma get_character_state h (i : Z) w : snd (get_character h i w) = w.
Proof.
  unfold get_character, bind, open_conn, read_table, ret.
  destruct (conn (deref_obj h w)) as [c|]; [|reflexivity].
  destruct (conn_closed (deref_conn c w)); [reflexivity|].
  destruct (files w !! conn_path (deref_conn c w)) as [t|]; [|reflexivity].
  destruct (find _ (rows t)); reflexivity.
Qed.

Lemma list_characters_state h w : snd (list_characters h w) = w.
Proof.
  unfold list_characters, bind, open_conn, read_table, ret.
  destruct (conn (deref_obj h w)) as [c|]; [|reflexivity].
  destruct (conn_closed (deref_conn c w)); [reflexivity|].
  destruct (files w !! conn_path (deref_conn c w)) as [t|]; reflexivity.
Qed.

Lemma get_character_ok w h c t (i : Z) :
  handle_ok w h c -> files w !! default_db_path = Some t ->
  get_character h i w
  = (Ok (character_of_row <$> find (fun r => row_id r =? i) (rows t)), w).
Proof.
  intros Hh Ht. unfold get_character, bind.
  rewrite (open_conn_ok w h c Hh). unfold read_table. rewrite Ht.
  destruct (find _ (rows t)); reflexivity.
Qed.


Lemma max_rowid_ge (rs : list Row) (r : Row) :
  In r rs -> row_id r <= max_rowid rs.
Proof.
  induction rs as [|r' rs IH]; simpl; [contradiction|].
  intros [-> | Hin]; [lia|]. specialize (IH Hin). lia.
Qed.


Lemma bind_assoc {S A B C : Type} (m : M S A) (f : A -> M S B)
      (k : B -> M S C) (s : S) :
  bind m (fun x => bind (f x) k) s = bind (bind m f) k s.
Proof. unfold bind. destruct (m s) as [[a|e] s']; reflexivity. Qed.

Lemma app_lifespan_enter_ok w :
  app_lifespan_enter w = (Ok (mkAppContext (length (objs w))), opened w).
Proof.
  unfold app_lifespan_enter. rewrite bind_assoc.
  unfold bind at 1. now rewrite open_database.
Qed.

Lemma get_db_ok w : get_db w = (Ok (resource_ref w), after_get_db w).
Proof.
  unfold get_db, resource_ref, after_get_db.
  destruct (_global_db w); [reflexivity|].
  rewrite bind_assoc. unfold bind at 1. now rewrite open_database.
Qed.

Lemma save_character_ok w h c t (character : Character) :
  handle_ok w h c -> files w !! default_db_path = Some t ->
  save_character h character w
  = (Ok (next_rowid t), stored t (row_of (next_rowid t) character) w).
Proof.
  intros Hh Ht. unfold save_character, bind.
  rewrite (open_conn_ok w h c Hh). unfold read_table. rewrite Ht.
  reflexivity.
Qed.



(** The character [create_character] builds, given the key it gets. *)
Lemma create_character_ok w c t (nm cls : string)
      (lvl st dx cn it ws ch : Z) (ctx : AppContext) :
  handle_ok w (db ctx) c -> files w !! default_db_path = Some t ->
  let hp := 10 + calculate_modifier cn
            + (lvl - 1) * (6 + calculate_modifier cn) in
  let built i :=
    mkCharacter i nm cls lvl (10 + calculate_modifier dx) hp hp
      st dx cn it ws ch in
  create_character nm cls lvl st dx cn it ws ch ctx w
  = (Ok (built (Some (next_rowid t))),
     add_log ("Created character: " +:+ nm +:+ " (ID: "
                +:+ str_of_int (next_rowid t) +:+ ")")
       (stored t (row_of (next_rowid t) (built None)) w)).
Proof.
  intros Hh Ht hp built. unfold create_character, bind.
  fold hp. fold (built None).
  rewrite (save_character_ok w (db ctx) c t (built None) Hh Ht).
  reflexivity.
Qed.


Lemma get_character_info_state (i : Z) (ctx : AppContext) w :
  snd (get_character_info i ctx w) = w.
Proof.
  unfold get_character_info, bind.
  pose proof (get_character_state (db ctx) i w) as Hs.
  destruct (get_character (db ctx) i w) as [[[ch|]|e] w']; simpl in *;
    congruence.
Qed.

Lemma after_get_db_handle w :
  (forall d, _global_db w = Some d -> exists c, handle_ok w d c) ->
  exists c, handle_ok (after_get_db w) (resource_ref w) c.
Proof.
  intros Hg. unfold after_get_db, resource_ref.
  destruct (_global_db w) as [d|]; [now apply Hg|].
  exists (length (conns w)). apply opened_handle_ok.
Qed.

Lemma after_get_db_keeps_handle w h c :
  handle_ok w h c -> handle_ok (after_get_db w) h c.
Proof.
  intros Hh. unfold after_get_db.
  destruct (_global_db w); [exact Hh|].
  now apply opened_keeps_handle.
Qed.

(** The table a resource read sees is the one on disk, or the empty
    table [get_db] has just created. *)
Lemma after_get_db_files w :
  files (after_get_db w) !! default_db_path
  = match _global_db w with
    | Some _ => files w !! default_db_path
    | None => Some (default (mkTable [] 0) (files w !! default_db_path))
    end.
Proof.
  unfold after_get_db. destruct (_global_db w); [reflexivity|].
  simpl. unfold created.
  destruct (files w !! default_db_path) eqn:E; simpl.
  - exact E.
  - apply lookup_insert_eq.
Qed.

(** What the character-sheet resource returns, case by case. *)
Lemma get_character_sheet_cases (s : string) w t :
  (forall d, _global_db w = Some d -> exists c, handle_ok w d c) ->
  files (after_get_db w) !! default_db_path = Some t ->
  get_character_sheet s w
  = match parse_int s with
    | None => (Ok ("Invalid character ID: " +:+ s), w)
    | Some i =>
        (Ok (match find (fun r => row_id r =? i) (rows t) with
             | Some row => sheet_text (character_of_row row)
             | None => "Character " +:+ s +:+ " not found"
             end),
         after_get_db w)
    end.
Proof.
  intros Hg Ht. unfold get_character_sheet, try_except, bind, lift, int_of_str.
  destruct (parse_int s) as [i|]; [|reflexivity].
  rewrite get_db_ok.
  destruct (after_get_db_handle w Hg) as [c Hc].
  rewrite (get_character_ok _ _ c t i Hc Ht).
  destruct (find _ (rows t)); reflexivity.
Qed.

Lemma list_all_characters_state w :
  snd (list_all_characters w) = after_get_db w.
Proof.
  unfold list_all_characters, bind. rewrite get_db_ok.
  pose proof (list_characters_state (resource_ref w) (after_get_db w)) as Hs.
  destruct (list_characters (resource_ref w) (after_get_db w))
    as [[[|ch l]|e] w']; simpl in *; congruence.
Qed.

Lemma get_character_sheet_state (s : string) w :
  snd (get_character_sheet s w) = w \/
  snd (get_character_sheet s w) = after_get_db w.
Proof.
  unfold get_character_sheet, try_except, bind, lift, int_of_str.
  destruct (parse_int s) as [i|]; [|left; reflexivity].
  rewrite get_db_ok.
  pose proof (get_character_state (resource_ref w) i (after_get_db w)) as Hs.
  destruct (get_character (resource_ref w) i (after_get_db w))
    as [[[ch|]|[[] msg]] w']; simpl in *; subst; auto.
Qed.

End Store.

(* ===================================================================== *)
(** * The server process: what every reachable state satisfies *)
(* ===================================================================== *)

Section Server.

Implicit Types (p q : Process) (w : World).

Lemma handles_inv_tool p (ctx : AppContext) :
  handles_inv p -> lifespan p = Some ctx ->
  exists c, handle_ok (world p) (db ctx) c.
Proof.
  unfold handles_inv. intros Hi Hl. rewrite Hl in Hi.
  destruct (_global_db (world p)).
  - destruct Hi as (c1 & _ & H1 & _). eauto.
  - exact Hi.
Qed.

Lemma handles_inv_resource p (d : nat) :
  handles_inv p -> _global_db (world p) = Some d ->
  exists c, handle_ok (world p) d c.
Proof.
  unfold handles_inv. intros Hi Hg. rewrite Hg in Hi.
  destruct (lifespan p).
  - destruct Hi as (_ & c2 & _ & H2 & _). eauto.
  - exact Hi.
Qed.

Lemma handle_ok_conn w (h c c' : nat) :
  handle_ok w h c -> handle_ok w h c' -> c = c'.
Proof. intros (Ho & _) (Ho' & _). congruence. Qed.

(** [get_db] keeps the invariant, whether or not it opens the store. *)
Lemma handles_inv_get_db w (l : option AppContext) :
  handles_inv (mkProcess w l) -> handles_inv (mkProcess (after_get_db w) l).
Proof.
  unfold handles_inv, after_get_db. simpl.
  destruct (_global_db w) as [d|] eqn:Hg; simpl; [now rewrite Hg|].
  destruct l as [ctx|].
  - intros [c1 H1]. exists c1, (length (conns w)).
    destruct (handle_ok_lt _ _ _ H1) as [Hlt1 Hlt2].
    split; [now apply opened_keeps_handle|].
    split; [apply opened_handle_ok|]. lia.
  - intros _. exists (length (conns w)). apply opened_handle_ok.
Qed.

(** A change of the files that keeps the table keeps the invariant. *)
Lemma handles_inv_files w w' (l : option AppContext) :
  objs w' = objs w -> conns w' = conns w -> _global_db w' = _global_db w ->
  is_Some (files w' !! default_db_path) ->
  handles_inv (mkProcess w l) -> handles_inv (mkProcess w' l).
Proof.
  intros Ho Hc Hg Hf. unfold handles_inv, handle_ok. simpl.
  rewrite Ho, Hc, Hg.
  destruct l as [ctx|], (_global_db w) as [d|]; auto.
  - intros (c1 & c2 & (? & ? & _) & (? & ? & _) & ? & ?).
    exists c1, c2. auto 10.
  - intros (c1 & ? & ? & _). exists c1. auto.
  - intros (c2 & ? & ? & _). exists c2. auto.
Qed.

Lemma step_handles_inv p q : handles_inv p -> step p q -> handles_inv q.
Proof.
  intros Hi Hstep.
  destruct Hstep as [p ctx w Hl He | p ctx r w Hl He
                    | p ctx nm cls lvl st dx cn it ws ch r w Hl He
                    | p ctx i r w Hl He | p ctx s r w Hl He
                    | p ctx r w Hl He].
  - (* start-up *)
    rewrite app_lifespan_enter_ok in He. injection He as <- <-.
    unfold handles_inv in *. rewrite Hl in Hi. simpl.
    destruct (_global_db (world p)) as [d|].
    + destruct Hi as [c2 H2].
      destruct (handle_ok_lt _ _ _ H2) as [Hlt1 Hlt2].
      exists (length (conns (world p))), c2.
      split; [apply opened_handle_ok|].
      split; [now apply opened_keeps_handle|]. lia.
    + exists (length (conns (world p))). apply opened_handle_ok.
  - (* shut-down *)
    destruct (handles_inv_tool p ctx Hi Hl) as [c1 H1].
    unfold app_lifespan_exit, disconnect, deref_obj in He.
    destruct H1 as (Ho1 & Hc1 & Hf). rewrite Ho1 in He. simpl in He.
    unfold sqlite3_close in He. injection He as _ <-.
    unfold handles_inv in *. rewrite Hl in Hi. simpl.
    destruct (_global_db (world p)) as [d|]; [|exact I].
    destruct Hi as (c1' & c2 & (Ho1' & _) & (Ho2 & Hc2 & _) & Hne & Hcne).
    assert (c1' = c1) as -> by congruence.
    exists c2. unfold handle_ok. simpl.
    rewrite list_lookup_insert_ne by exact Hcne. auto.
  - (* create_character *)
    destruct (handles_inv_tool p ctx Hi Hl) as [c1 H1].
    destruct (proj2 (proj2 H1)) as [t Ht].
    rewrite (create_character_ok _ c1 t _ _ _ _ _ _ _ _ _ ctx H1 Ht) in He.
    injection He as _ <-.
    apply (handles_inv_files (world p)); try reflexivity.
    + simpl. rewrite lookup_insert_eq. eauto.
    + destruct p as [w0 l0]. simpl in *. now subst l0.
  - (* get_character_info *)
    pose proof (get_character_info_state i ctx (world p)) as Hs.
    rewrite He in Hs. simpl in Hs. subst w.
    destruct p as [w0 l0]. simpl in *. now subst l0.
  - (* get_character_sheet *)
    pose proof (get_character_sheet_state s (world p)) as Hs.
    rewrite He in Hs. simpl in Hs.
    destruct p as [w0 l0]. simpl in *. subst l0.
    destruct Hs as [-> | ->]; [exact Hi | now apply handles_inv_get_db].
  - (* list_all_characters *)
    pose proof (list_all_characters_state (world p)) as Hs.
    rewrite He in Hs. simpl in Hs. subst w.
    destruct p as [w0 l0]. simpl in *. subst l0.
    now apply handles_inv_get_db.
Qed.

Lemma reachable_handles_inv p : reachable p -> handles_inv p.
Proof.
  induction 1 as [disk | p q _ IH Hstep].
  - exact I.
  - exact (step_handles_inv p q IH Hstep).
Qed.






End Server.

(* ===================================================================== *)
(** * The properties at concrete states *)
(* ===================================================================== *)

Lemma reachable_started : reachable started.
Proof.
  apply (reach_step (boot ∅)); [constructor|].
  apply step_startup; [reflexivity|]. apply app_lifespan_enter_ok.
Qed.

Lemma reachable_visited : reachable visited.
Proof.
  apply (reach_step started); [exact reachable_started|].
  apply (step_get_character_sheet started (mkAppContext 0) "1"
           (Ok "Character 1 not found")); [reflexivity|].
  vm_compute. reflexivity.
Qed.








(* ===================================================================== *)
(** * Further properties of the dice roller *)
(* ===================================================================== *)

Section DiceRollerMore.

Context {G : Type} `{RandomSource G}.

(** Every notation is either rejected or passes all the checks. *)
Lemma notation_dichotomy (s : string) :
  rejected_notation s \/
  exists p0 p1 n k,
    str_split "d" (str_lower s) = [p0; p1] /\
    parse_int p0 = Some n /\ parse_int p1 = Some k /\
    1 <= n <= 20 /\ 1 <= k.
Proof.
  destruct (str_split "d" (str_lower s)) as [|p0 [|p1 [|p2 l]]] eqn:Hs;
    try (left; apply rej_parts; rewrite Hs; simpl; lia).
  destruct (parse_int p0) as [n|] eqn:H0;
    [|left; eapply rej_dice_not_int; eassumption].
  destruct (parse_int p1) as [k|] eqn:H1;
    [|left; eapply rej_sides_not_int; eassumption].
  destruct (Z_le_gt_dec n 0); [left; eapply rej_dice_nonpos; eassumption|].
  destruct (Z_le_gt_dec k 0); [left; eapply rej_sides_nonpos; eassumption|].
  destruct (Z_lt_le_dec 20 n); [left; eapply rej_dice_over_cap; eassumption|].
  right. exists p0, p1, n, k. repeat (split; [reflexivity || assumption|]).
  split; lia.
Qed.

(** X1. [roll_dice] fails exactly on the rejected notations: it raises if
    and only if the notation does not split into two parts, has a part
    that is no integer, or has [N <= 0], [S <= 0] or [N > 20]. *)
Theorem roll_dice_fails_iff_rejected (s : string) (m : Z) (g : G) :
  (exists e g', roll_dice s m g = (Raise e, g')) <-> rejected_notation s.
Proof.
  split.
  - intros (e & g' & He).
    destruct (notation_dichotomy s)
      as [Hr | (p0 & p1 & n & k & Hs & H0 & H1 & Hn & Hk)]; [exact Hr|].
    rewrite (roll_dice_accepts s p0 p1 n k m g Hs H0 H1 Hn Hk) in He.
    discriminate.
  - intros Hr. destruct (roll_dice_rejected s m g Hr) as [msg Hm]. eauto.
Qed.

(** X2. Whenever [roll_dice] fails, the exception is a [ValueError] whose
    message starts with ["Dice rolling error: "], and no die has been
    drawn: the random source is where it was. *)
Theorem roll_dice_error_shape (s : string) (m : Z) (g g' : G) (e : exn) :
  roll_dice s m g = (Raise e, g') ->
  exn_cls e = ValueError /\ g' = g /\
  exists msg, exn_msg e = "Dice rolling error: " +:+ msg.
Proof.
  unfold roll_dice, try_except, roll_dice_try.
  destruct (str_split "d" (str_lower s)) as [|p0 [|p1 [|p2 l]]]; simpl;
    try (intros [= <- <-]; eauto).
  unfold bind, lift, int_of_str.
  destruct (parse_int p0) as [n|]; simpl; [|intros [= <- <-]; eauto].
  destruct (parse_int p1) as [k|]; simpl; [|intros [= <- <-]; eauto].
  destruct ((n <=? 0) || (k <=? 0)); simpl; [intros [= <- <-]; eauto|].
  destruct (20 <? n); simpl; [intros [= <- <-]; eauto|].
  destruct (roll_each (Z.to_nat n) k g) as [rolls g2]. discriminate.
Qed.

Lemma sum_bounds (xs : list Z) (k : Z) :
  Forall (fun x => 1 <= x <= k) xs ->
  Z.of_nat (length xs) <= fold_right Z.add 0 xs <= k * Z.of_nat (length xs).
Proof.
  induction 1 as [|x xs Hx _ IH]; simpl length; simpl fold_right; [lia|].
  rewrite Nat2Z.inj_succ. nia.
Qed.

(** X3. The total of a roll of [N] dice with [S] sides and modifier [m]
    lies between [N + m] and [N * S + m]. *)
Theorem roll_dice_total_bounds (n k m : Z) (g : G) :
  1 <= n <= 20 -> 1 <= k ->
  exists r g',
    roll_dice (notation n k) m g = (Ok r, g') /\
    n + m <= total r <= n * k + m.
Proof.
  intros Hn Hk. eexists. eexists. split.
  - apply (roll_dice_accepts _ (str_of_int n) (str_of_int k) n k);
      auto using notation_parts, parse_int_str_of_int.
  - simpl. rewrite sum_fold_right.
    pose proof (sum_bounds _ k (roll_each_range (Z.to_nat n) k g Hk)) as Hb.
    rewrite roll_each_length in Hb. rewrite Z2Nat.id in Hb by lia. lia.
Qed.

Lemma chr_lower_idem (c : ascii) : chr_lower (chr_lower c) = chr_lower c.
Proof. destruct c as [[] [] [] [] [] [] [] []]; reflexivity. Qed.

Lemma str_lower_idem (s : string) : str_lower (str_lower s) = str_lower s.
Proof.
  induction s as [|c s IH]; simpl; [reflexivity|].
  now rewrite chr_lower_idem, IH.
Qed.

(** X4. The notation is read without regard to letter case: rolling the
    lower-cased notation draws the same dice and gives the same total,
    or fails with the same error; only the echoed notation differs. *)
Theorem roll_dice_case_insensitive (s : string) (m : Z) (g : G) :
  roll_dice (str_lower s) m g =
    match roll_dice s m g with
    | (Ok r, g') =>
        (Ok (mkDiceRoll (str_lower s) (individual_rolls r) (total r)
               (modifier r)), g')
    | (Raise e, g') => (Raise e, g')
    end.
Proof.
  unfold roll_dice, try_except, roll_dice_try. rewrite str_lower_idem.
  destruct (str_split "d" (str_lower s)) as [|p0 [|p1 [|p2 l]]]; simpl;
    try reflexivity.
  unfold bind, lift, int_of_str.
  destruct (parse_int p0) as [n|]; simpl; [|reflexivity].
  destruct (parse_int p1) as [k|]; simpl; [|reflexivity].
  destruct ((n <=? 0) || (k <=? 0)); simpl; [reflexivity|].
  destruct (20 <? n); simpl; [reflexivity|].
  destruct (roll_each (Z.to_nat n) k g) as [rolls g2]. reflexivity.
Qed.

End DiceRollerMore.

Lemma roll_dice_error_shape_witness :
  roll_dice "2d0" 1 [5]
    = (Raise (Exn ValueError
                "Dice rolling error: Number of dice and sides must be positive"),
       [5]) /\
  exn_cls (Exn ValueError
             "Dice rolling error: Number of dice and sides must be positive")
    = ValueError /\
  [5] = [5] /\
  exists msg,
    exn_msg (Exn ValueError
               "Dice rolling error: Number of dice and sides must be positive")
    = "Dice rolling error: " +:+ msg.
Proof.
  split; [reflexivity|].
  exact (roll_dice_error_shape "2d0" 1 [5] [5] _ eq_refl).
Defined.

Lemma roll_dice_total_bounds_witness :
  1 <= 3 <= 20 /\ 1 <= 6 /\
  exists r g',
    roll_dice (notation 3 6) (-2) [5; 11; 2] = (Ok r, g') /\
    3 + -2 <= total r <= 3 * 6 + -2.
Proof.
  split; [lia|]. split; [lia|].
  apply (roll_dice_total_bounds 3 6 (-2) [5; 11; 2]); lia.
Defined.

(* ===================================================================== *)
(** * Further properties of the combat resolver *)
(* ===================================================================== *)

Section CombatResolverMore.

Context {G : Type} `{RandomSource G}.

(** [attack_roll] laid out by the d20 it draws. *)
Lemma attack_roll_unfold (b ac : Z) (dice : string) (db : Z) (g : G) :
  attack_roll b ac dice db g =
    let d := fst (randint 1 20 g) in
    let g1 := snd (randint 1 20 g) in
    let hit := (ac <=? d + b) || (d =? 20) in
    if hit && negb (d =? 1) then
      match roll_dice dice db g1 with
      | (Raise e, g2) => (Raise e, g2)
      | (Ok r1, g2) =>
          if d =? 20 then
            match roll_dice dice 0 g2 with
            | (Raise e, g3) => (Raise e, g3)
            | (Ok r2, g3) =>
                (Ok (mkAttackResult hit (d + b) (Some (total r1 + total r2))
                       true
                       ("CRITICAL HIT! " +:+ attack_line d b ac +:+ " Damage: "
                          +:+ str_of_int (total r1 + total r2))), g3)
            end
          else
            (Ok (mkAttackResult hit (d + b) (Some (total r1)) false
                   ("Hit! " +:+ attack_line d b ac +:+ " Damage: "
                      +:+ str_of_int (total r1))), g2)
      end
    else
      (Ok (mkAttackResult hit (d + b) None (d =? 20)
             (if d =? 1 then "Critical Miss! Rolled natural 1."
              else "Miss! " +:+ attack_line d b ac)), g1).
Proof.
  unfold attack_roll. destruct (randint 1 20 g) as [d g1]. cbn [fst snd].
  cbv zeta.
  destruct (((ac <=? d + b) || (d =? 20)) && negb (d =? 1)); [|reflexivity].
  unfold bind. destruct (roll_dice dice db g1) as [[r1|e] g2]; [|reflexivity].
  destruct (d =? 20); [|reflexivity].
  destruct (roll_dice dice 0 g2) as [[r2|e] g3]; reflexivity.
Qed.

(** X5. On a d20 showing neither 1 nor 20 the attack is decided by the
    comparison alone: below the target AC it is a miss without damage,
    described as a miss; otherwise it is a hit whose damage is the total
    of one damage roll with the damage bonus. *)
Theorem attack_roll_ordinary_roll (b ac : Z) (dice : string) (db : Z) (g : G) :
  fst (randint 1 20 g) <> 1 -> fst (randint 1 20 g) <> 20 ->
  let d := fst (randint 1 20 g) in
  let g1 := snd (randint 1 20 g) in
  (d + b < ac ->
   attack_roll b ac dice db g
   = (Ok (mkAttackResult false (d + b) None false
            ("Miss! " +:+ attack_line d b ac)), g1)) /\
  (ac <= d + b ->
   forall r g2, roll_dice dice db g1 = (Ok r, g2) ->
   attack_roll b ac dice db g
   = (Ok (mkAttackResult true (d + b) (Some (total r)) false
            ("Hit! " +:+ attack_line d b ac +:+ " Damage: "
               +:+ str_of_int (total r))), g2)).
Proof.
  intros H1 H20 d g1. rewrite attack_roll_unfold. fold d g1. cbv zeta.
  destruct (Z.eqb_spec d 1) as [E|_]; [contradiction|].
  destruct (Z.eqb_spec d 20) as [E|_]; [contradiction|].
  rewrite orb_false_r, andb_true_r. split.
  - intros Hlt. destruct (Z.leb_spec ac (d + b)); [lia|]. reflexivity.
  - intros Hge r g2 Hr. destruct (Z.leb_spec ac (d + b)); [|lia].
    rewrite Hr. reflexivity.
Qed.

(** The fields of a result, read off the d20. *)
Lemma attack_roll_fields (b ac : Z) (dice : string) (db : Z)
      (g g' : G) (a : AttackResult) :
  attack_roll b ac dice db g = (Ok a, g') ->
  let d := fst (randint 1 20 g) in
  hit a = ((ac <=? d + b) || (d =? 20)) /\
  attack_total_of a = d + b /\
  critical a = (d =? 20) /\
  match damage a with
  | Some _ => ((ac <=? d + b) || (d =? 20)) && negb (d =? 1) = true
  | None => ((ac <=? d + b) || (d =? 20)) && negb (d =? 1) = false
  end.
Proof.
  intros Ha d. rewrite attack_roll_unfold in Ha. fold d in Ha. cbv zeta in Ha.
  destruct (((ac <=? d + b) || (d =? 20)) && negb (d =? 1)) eqn:Hc.
  - destruct (roll_dice dice db (snd (randint 1 20 g))) as [[r1|e] g2];
      [|discriminate].
    destruct (d =? 20) eqn:E20.
    + destruct (roll_dice dice 0 g2) as [[r2|e] g3]; [|discriminate].
      injection Ha as <- _. simpl. auto.
    + injection Ha as <- _. simpl. auto.
  - injection Ha as <- _. simpl. auto.
Qed.

(** X6. Every result of [attack_roll] reports the d20 plus the attacker
    bonus as its attack total, hence a total within [1 + bonus] and
    [20 + bonus]; it is critical exactly on a 20, a critical is a hit,
    and damage is present exactly when the hit flag is set and the d20
    is not 1. *)
Theorem attack_roll_result_invariants (b ac : Z) (dice : string) (db : Z)
        (g g' : G) (a : AttackResult) :
  attack_roll b ac dice db g = (Ok a, g') ->
  let d := fst (randint 1 20 g) in
  attack_total_of a = d + b /\
  1 + b <= attack_total_of a <= 20 + b /\
  (critical a = true <-> d = 20) /\
  (critical a = true -> hit a = true) /\
  (is_Some (damage a) <-> hit a = true /\ d <> 1).
Proof.
  intros Ha d.
  destruct (attack_roll_fields _ _ _ _ _ _ _ Ha) as (Hh & Ht & Hc & Hd).
  fold d in Hh, Ht, Hc, Hd.
  pose proof (randint_range 1 20 g ltac:(lia)) as Hr. fold d in Hr.
  rewrite Hh, Ht, Hc.
  split; [reflexivity|]. split; [lia|].
  split; [apply Z.eqb_eq|].
  split; [intros ->; apply orb_true_r|].
  destruct (damage a) as [x|].
  - apply andb_prop in Hd as [Hd1 Hd2]. apply negb_true_iff in Hd2.
    apply Z.eqb_neq in Hd2. split; [auto | eauto].
  - split; [intros [x Hx]; discriminate|].
    intros [Hd1 Hd2]. apply Z.eqb_neq in Hd2.
    rewrite Hd1, Hd2 in Hd. discriminate.
Qed.

(** X7. A damage notation the dice roller rejects makes [attack_roll]
    fail exactly on the rolls that would deal damage: a 20, or a roll
    other than 1 whose total reaches the target AC.  On every other roll
    the malformed notation goes unnoticed and a miss is returned. *)
Theorem attack_roll_bad_dice_iff (b ac : Z) (dice : string) (db : Z) (g : G) :
  rejected_notation dice ->
  let d := fst (randint 1 20 g) in
  (exists e g', attack_roll b ac dice db g = (Raise e, g')) <->
  (d = 20 \/ (ac <= d + b /\ d <> 1)).
Proof.
  intros Hr d. rewrite attack_roll_unfold. fold d. cbv zeta.
  destruct (roll_dice_rejected dice db (snd (randint 1 20 g)) Hr) as [msg Hm].
  rewrite Hm.
  assert (Hiff : ((ac <=? d + b) || (d =? 20)) && negb (d =? 1) = true
                 <-> d = 20 \/ (ac <= d + b /\ d <> 1)).
  { rewrite andb_true_iff, orb_true_iff, negb_true_iff, Z.leb_le,
      Z.eqb_eq, Z.eqb_neq.
    split.
    - intros [[Hle | H20] Hne]; auto.
    - intros [H20 | [Hle Hne]]; [split; [auto | lia] | auto]. }
  destruct (((ac <=? d + b) || (d =? 20)) && negb (d =? 1)).
  - split; [intros _; now apply Hiff | intros _; eauto].
  - split; [intros (e & g' & He); discriminate|].
    intros Hd. apply Hiff in Hd. discriminate.
Qed.

Lemma roll_each_sum_bounds (n k : Z) (g : G) :
  0 <= n -> 1 <= k ->
  n <= Py.sum (fst (roll_each (Z.to_nat n) k g)) <= n * k.
Proof.
  intros Hn Hk. rewrite sum_fold_right.
  pose proof (sum_bounds _ k (roll_each_range (Z.to_nat n) k g Hk)) as Hb.
  rewrite roll_each_length in Hb. rewrite Z2Nat.id in Hb by lia. lia.
Qed.

Lemma roll_dice_notation_result (n k m : Z) (g : G) :
  1 <= n <= 20 -> 1 <= k ->
  roll_dice (notation n k) m g =
    (Ok (mkDiceRoll (notation n k) (fst (roll_each (Z.to_nat n) k g))
           (Py.sum (fst (roll_each (Z.to_nat n) k g)) + m) m),
     snd (roll_each (Z.to_nat n) k g)).
Proof.
  intros Hn Hk.
  apply (roll_dice_accepts _ (str_of_int n) (str_of_int k) n k);
    auto using notation_parts, parse_int_str_of_int.
Qed.

(** X8. With damage dice [NdS] an attack never fails, and the damage it
    deals is bounded by the dice: between [N + bonus] and [N * S + bonus]
    on an ordinary hit, between [2 N + bonus] and [2 N * S + bonus] on a
    critical hit. *)
Theorem attack_roll_damage_bounds (b ac n k db : Z) (g : G) :
  1 <= n <= 20 -> 1 <= k ->
  exists a g',
    attack_roll b ac (notation n k) db g = (Ok a, g') /\
    forall x, damage a = Some x ->
      if critical a then 2 * n + db <= x <= 2 * (n * k) + db
      else n + db <= x <= n * k + db.
Proof.
  intros Hn Hk. rewrite attack_roll_unfold. cbv zeta.
  set (d := fst (randint 1 20 g)). set (g1 := snd (randint 1 20 g)).
  destruct (((ac <=? d + b) || (d =? 20)) && negb (d =? 1)).
  - rewrite (roll_dice_notation_result n k db g1 Hn Hk).
    pose proof (roll_each_sum_bounds n k g1 ltac:(lia) Hk) as B1.
    destruct (d =? 20).
    + rewrite (roll_dice_notation_result n k 0 _ Hn Hk).
      pose proof (roll_each_sum_bounds n k
                    (snd (roll_each (Z.to_nat n) k g1)) ltac:(lia) Hk) as B2.
      eexists. eexists. split; [reflexivity|]. simpl.
      intros x [= <-]. lia.
    + eexists. eexists. split; [reflexivity|]. simpl.
      intros x [= <-]. lia.
  - eexists. eexists. split; [reflexivity|]. simpl. discriminate.
Qed.

(** X9. Against a target AC of at most [1 + bonus] every result carries
    the hit flag; against a target AC above [20 + bonus] the hit flag is
    set on a critical only. *)
Theorem attack_roll_ac_extremes (b ac : Z) (dice : string) (db : Z)
        (g g' : G) (a : AttackResult) :
  attack_roll b ac dice db g = (Ok a, g') ->
  (ac <= 1 + b -> hit a = true) /\
  (20 + b < ac -> (hit a = true <-> critical a = true)).
Proof.
  intros Ha.
  destruct (attack_roll_fields _ _ _ _ _ _ _ Ha) as (Hh & _ & Hc & _).
  pose proof (randint_range 1 20 g ltac:(lia)) as Hr.
  set (d := fst (randint 1 20 g)) in *.
  rewrite Hh, Hc. split; intros Hac.
  - destruct (Z.leb_spec ac (d + b)); [reflexivity | lia].
  - destruct (Z.leb_spec ac (d + b)); [lia | reflexivity].
Qed.

End CombatResolverMore.

(* ===================================================================== *)
(** * Further properties of the character calculator and the store *)
(* ===================================================================== *)

Section StoreMore.

Implicit Types (p q : Process) (w : World) (t : Table).

(** X10. The modifier never decreases when the score grows, and two more
    points of score are worth exactly one more point of modifier. *)
Theorem calculate_modifier_monotone (s s' : Z) :
  s <= s' ->
  calculate_modifier s <= calculate_modifier s' /\
  calculate_modifier (s + 2) = calculate_modifier s + 1.
Proof.
  intros Hle. unfold calculate_modifier. split.
  - apply Z.div_le_mono; lia.
  - replace (s + 2 - 10) with (s - 10 + 1 * 2) by lia.
    now rewrite Z.div_add by lia.
Qed.











Lemma list_characters_ok w (h c1 : nat) t :
  handle_ok w h c1 -> files w !! default_db_path = Some t ->
  list_characters h w = (Ok (map character_of_row (rows t)), w).
Proof.
  intros Hh Ht. unfold list_characters, bind.
  rewrite (open_conn_ok w h c1 Hh). unfold read_table. rewrite Ht.
  reflexivity.
Qed.

Lemma files_unique_created (path : string) (fs : gmap string Table) :
  files_unique fs -> files_unique (created path fs).
Proof.
  intros Hu. unfold created. destruct (fs !! path) eqn:E; [exact Hu|].
  intros path' t. destruct (decide (path = path')) as [<-|Hne].
  - rewrite lookup_insert_eq. intros [= <-]. constructor.
  - rewrite lookup_insert_ne by exact Hne. apply Hu.
Qed.

Lemma keys_unique_after_get_db w :
  keys_unique w -> keys_unique (after_get_db w).
Proof.
  unfold keys_unique, after_get_db. intros Hu.
  destruct (_global_db w); [exact Hu|]. simpl.
  now apply files_unique_created.
Qed.

Lemma NoDup_snoc_fresh (rs : list Row) (row : Row) :
  NoDup (map row_id rs) ->
  (forall r, In r rs -> row_id r <> row_id row) ->
  NoDup (map row_id (rs ++ [row])).
Proof.
  intros Hnd Hfresh. rewrite map_app. apply NoDup_app. split; [exact Hnd|].
  split; [|simpl; apply NoDup_singleton].
  intros x Hx Hx'. apply list_elem_of_In in Hx. apply in_map_iff in Hx.
  destruct Hx as (r & <- & Hr). simpl in Hx'.
  apply list_elem_of_singleton in Hx'. exact (Hfresh r Hr Hx').
Qed.

Lemma keys_unique_stored w t (row : Row) (msg : string) :
  keys_unique w -> files w !! default_db_path = Some t ->
  row_id row = next_rowid t ->
  keys_unique (add_log msg (stored t row w)).
Proof.
  intros Hu Ht Hid. unfold keys_unique, stored. simpl.
  intros path t'. destruct (decide (default_db_path = path)) as [<-|Hne].
  - rewrite lookup_insert_eq. intros [= <-]. simpl.
    apply NoDup_snoc_fresh; [exact (Hu _ _ Ht)|].
    intros r0 Hin%max_rowid_ge. rewrite Hid. unfold next_rowid. lia.
  - rewrite lookup_insert_ne by exact Hne. apply Hu.
Qed.

(** X15. The server keeps the keys of each table pairwise different:
    from a reachable state whose tables have unique keys, every step
    leads to a state whose tables have unique keys. *)
Theorem step_keeps_keys_unique p q :
  reachable p -> keys_unique (world p) -> step p q -> keys_unique (world q).
Proof.
  intros Hr Hu Hstep. pose proof (reachable_handles_inv p Hr) as Hi.
  destruct Hstep as [p ctx w Hl He | p ctx r w Hl He
                    | p ctx nm cls lvl st dx cn it ws ch r w Hl He
                    | p ctx i r w Hl He | p ctx s r w Hl He
                    | p ctx r w Hl He]; simpl.
  - rewrite app_lifespan_enter_ok in He. injection He as _ <-.
    unfold keys_unique, opened. simpl. now apply files_unique_created.
  - destruct (handles_inv_tool p ctx Hi Hl) as [c1 (Ho1 & _ & _)].
    unfold app_lifespan_exit, disconnect, deref_obj in He.
    rewrite Ho1 in He. simpl in He. unfold sqlite3_close in He.
    injection He as _ <-. exact Hu.
  - destruct (handles_inv_tool p ctx Hi Hl) as [c1 H1].
    destruct (proj2 (proj2 H1)) as [t Ht].
    rewrite (create_character_ok _ c1 t _ _ _ _ _ _ _ _ _ ctx H1 Ht) in He.
    injection He as _ <-. now apply keys_unique_stored.
  - pose proof (get_character_info_state i ctx (world p)) as Hs.
    rewrite He in Hs. simpl in Hs. now subst w.
  - pose proof (get_character_sheet_state s (world p)) as Hs.
    rewrite He in Hs. simpl in Hs.
    destruct Hs as [-> | ->]; [exact Hu | now apply keys_unique_after_get_db].
  - pose proof (list_all_characters_state (world p)) as Hs.
    rewrite He in Hs. simpl in Hs. subst w.
    now apply keys_unique_after_get_db.
Qed.

Lemma find_unique (rs : list Row) (r : Row) :
  NoDup (map row_id rs) -> In r rs ->
  find (fun x => row_id x =? row_id r) rs = Some r.
Proof.
  induction rs as [|x rs IH]; simpl; [contradiction|].
  intros Hnd Hin. apply NoDup_cons in Hnd as [Hx Hnd].
  destruct Hin as [-> | Hin]; [now rewrite Z.eqb_refl|].
  destruct (Z.eqb_spec (row_id x) (row_id r)) as [E|_]; [|now apply IH].
  exfalso. apply Hx. rewrite E. apply list_elem_of_In.
  now apply in_map.
Qed.

(** X16. When the keys are unique, listing and lookup agree: every
    character [list_characters] returns carries an id, and
    [get_character] on that id returns that very character. *)
Theorem listed_characters_retrievable p (ctx : AppContext) :
  reachable p -> lifespan p = Some ctx -> keys_unique (world p) ->
  exists cs,
    list_characters (db ctx) (world p) = (Ok cs, world p) /\
    forall ch, In ch cs ->
      exists i, id ch = Some i /\
                get_character (db ctx) i (world p) = (Ok (Some ch), world p).
Proof.
  intros Hr Hl Hu.
  destruct (handles_inv_tool p ctx (reachable_handles_inv p Hr) Hl) as [c1 H1].
  destruct (proj2 (proj2 H1)) as [t Ht].
  exists (map character_of_row (rows t)).
  split; [exact (list_characters_ok _ _ c1 t H1 Ht)|].
  intros ch (r & <- & Hin)%in_map_iff. exists (row_id r).
  split; [reflexivity|].
  rewrite (get_character_ok _ _ c1 t _ H1 Ht).
  now rewrite (find_unique (rows t) r (Hu _ _ Ht) Hin).
Qed.


Lemma append_assoc (a b c : string) : (a +:+ b) +:+ c = a +:+ (b +:+ c).
Proof.
  induction a as [|x a IH]; [reflexivity|].
  change (String x ((a +:+ b) +:+ c) = String x (a +:+ (b +:+ c))).
  now rewrite IH.
Qed.

Lemma fold_left_lines (cs : list Character) :
  forall init,
    fold_left (fun result char => result +:+ character_line char) cs init
    = init +:+ join (map character_line cs).
Proof.
  induction cs as [|ch cs IH]; intros init; simpl.
  - induction init as [|x init IHi]; [reflexivity|].
    change (String x init = String x (init +:+ EmptyString)).
    now rewrite <- IHi.
  - rewrite IH. apply append_assoc.
Qed.

(** X18. The all-characters resource never raises: in every reachable
    state it returns a text, ["No characters found."] when the table is
    empty, and otherwise the heading followed by one line per stored
    character, in the order of [list_characters]. *)
Theorem list_all_characters_text p :
  reachable p ->
  exists text w' cs,
    list_all_characters (world p) = (Ok text, w') /\
    list_characters (resource_ref (world p)) w' = (Ok cs, w') /\
    (cs = [] -> text = "No characters found.") /\
    (cs <> [] ->
     text = "# All Characters" +:+ nl +:+ nl +:+ join (map character_line cs)).
Proof.
  intros Hr. pose proof (reachable_handles_inv p Hr) as Hi.
  assert (Hg : forall d, _global_db (world p) = Some d ->
                         exists c, handle_ok (world p) d c)
    by (intros d; apply handles_inv_resource; exact Hi).
  destruct (after_get_db_handle _ Hg) as (c2 & H2).
  destruct (proj2 (proj2 H2)) as [t Ht].
  pose proof (list_characters_ok _ _ c2 t H2 Ht) as Hlist.
  unfold list_all_characters, bind. rewrite get_db_ok, Hlist.
  destruct (map character_of_row (rows t)) as [|ch cs] eqn:E.
  - eexists. eexists. exists []. split; [reflexivity|].
    split; [exact Hlist|]. split; [reflexivity | congruence].
  - eexists. eexists. exists (ch :: cs). split; [reflexivity|].
    split; [exact Hlist|]. split; [discriminate|]. intros _.
    rewrite (fold_left_lines (ch :: cs)). now rewrite !append_assoc.
Qed.

Lemma after_get_db_files_ok w t :
  files w !! default_db_path = Some t ->
  files (after_get_db w) !! default_db_path = Some t.
Proof.
  intros Ht. rewrite after_get_db_files, Ht.
  destruct (_global_db w); reflexivity.
Qed.

Lemma after_get_db_same_read w (h c1 : nat) (i : Z) :
  handle_ok w h c1 ->
  fst (get_character h i (after_get_db w)) = fst (get_character h i w).
Proof.
  intros Hh. destruct (proj2 (proj2 Hh)) as [t Ht].
  rewrite (get_character_ok _ _ c1 t i Hh Ht).
  rewrite (get_character_ok _ _ c1 t i (after_get_db_keeps_handle _ _ _ Hh)
             (after_get_db_files_ok _ _ Ht)).
  reflexivity.
Qed.

(** X19. Resource reads leave the stored characters alone: after the
    character-sheet resource or the listing resource has run, every
    lookup through the tool handle returns what it returned before. *)
Theorem resource_reads_keep_characters p (ctx : AppContext) (s : string)
        (i : Z) :
  reachable p -> lifespan p = Some ctx ->
  fst (get_character (db ctx) i (snd (get_character_sheet s (world p))))
  = fst (get_character (db ctx) i (world p)) /\
  fst (get_character (db ctx) i (snd (list_all_characters (world p))))
  = fst (get_character (db ctx) i (world p)).
Proof.
  intros Hr Hl.
  destruct (handles_inv_tool p ctx (reachable_handles_inv p Hr) Hl) as [c1 H1].
  split.
  - destruct (get_character_sheet_state s (world p)) as [-> | ->];
      [reflexivity | exact (after_get_db_same_read _ _ c1 i H1)].
  - rewrite list_all_characters_state.
    exact (after_get_db_same_read _ _ c1 i H1).
Qed.

(** X20. [get_db] opens the store once: the first call returns a handle
    and records it in [_global_db]; a further call returns the same
    handle and changes nothing. *)
Theorem get_db_once w :
  exists d,
    get_db w = (Ok d, snd (get_db w)) /\
    _global_db (snd (get_db w)) = Some d /\
    get_db (snd (get_db w)) = (Ok d, snd (get_db w)).
Proof.
  exists (resource_ref w). rewrite get_db_ok. cbn [snd].
  assert (Hg : _global_db (after_get_db w) = Some (resource_ref w)).
  { unfold after_get_db, resource_ref.
    destruct (_global_db w) eqn:E; [exact E | reflexivity]. }
  split; [reflexivity|]. split; [exact Hg|].
  unfold get_db at 1. now rewrite Hg.
Qed.

Lemma app_lifespan_exit_ok w (ctx : AppContext) (c1 : nat) :
  handle_ok w (db ctx) c1 ->
  app_lifespan_exit ctx w
  = (Ok tt, set_conns (<[c1 := mkConnection default_db_path true]> (conns w)) w).
Proof.
  intros (Ho & Hc & _).
  unfold app_lifespan_exit, disconnect, deref_obj, sqlite3_close, deref_conn.
  rewrite Ho. simpl. rewrite Hc. reflexivity.
Qed.

(** X21. Shut-down closes the tool connection and only that one: it
    never raises; afterwards lookups and insertions through the tool
    handle raise [sqlite3.ProgrammingError], while the handle of the
    resources, if there is one, is still in working order. *)
Theorem tool_handle_closed_after_shutdown p (ctx : AppContext) (i : Z)
        (ch : Character) :
  reachable p -> lifespan p = Some ctx ->
  let w' := snd (app_lifespan_exit ctx (world p)) in
  let closed := Exn ProgrammingError "Cannot operate on a closed database." in
  app_lifespan_exit ctx (world p) = (Ok tt, w') /\
  get_character (db ctx) i w' = (Raise closed, w') /\
  save_character (db ctx) ch w' = (Raise closed, w') /\
  forall d, _global_db w' = Some d -> exists c, handle_ok w' d c.
Proof.
  intros Hr Hl. pose proof (reachable_handles_inv p Hr) as Hi.
  destruct (handles_inv_tool p ctx Hi Hl) as [c1 H1].
  rewrite (app_lifespan_exit_ok _ ctx c1 H1). cbn [snd]. cbv zeta.
  destruct H1 as (Ho & Hc & Hf).
  assert (Hopen : open_conn (db ctx)
                    (set_conns (<[c1 := mkConnection default_db_path true]>
                                  (conns (world p))) (world p))
                  = (Raise (Exn ProgrammingError
                              "Cannot operate on a closed database."),
                     set_conns (<[c1 := mkConnection default_db_path true]>
                                  (conns (world p))) (world p))).
  { unfold open_conn, deref_obj, deref_conn. simpl. rewrite Ho. simpl.
    rewrite list_lookup_insert_eq by (eapply lookup_lt_Some; eassumption).
    reflexivity. }
  split; [reflexivity|].
  split; [unfold get_character, bind; now rewrite Hopen|].
  split; [unfold save_character, bind; now rewrite Hopen|].
  intros d Hd. simpl in Hd.
  unfold handles_inv in Hi. rewrite Hl, Hd in Hi.
  destruct Hi as (c1' & c2 & (Ho1' & _) & (Ho2 & Hc2 & _) & Hne & Hcne).
  assert (c1' = c1) as -> by congruence.
  exists c2. unfold handle_ok. simpl.
  rewrite list_lookup_insert_ne by exact Hcne. auto.
Qed.

(** X22. A [Database] that was never connected cannot be read: right
    after [Database(path)], [get_character] raises [AttributeError],
    and [disconnect] does nothing. *)
Theorem database_not_connected w (path : string) (i : Z) :
  let o := length (objs w) in
  let w1 := snd (Database_init path w) in
  Database_init path w = (Ok o, w1) /\
  get_character o i w1
  = (Raise (Exn AttributeError "'NoneType' object has no attribute 'execute'"),
     w1) /\
  disconnect o w1 = (Ok tt, w1).
Proof.
  cbv zeta. unfold Database_init. cbn [snd].
  split; [reflexivity|].
  unfold get_character, disconnect, bind, open_conn, deref_obj. simpl.
  rewrite list_lookup_middle by reflexivity. simpl. split; reflexivity.
Qed.


(** X24. For an id string that reads as the key of a stored row, the
    character-sheet resource returns the sheet of the character in that
    row. *)
Theorem get_character_sheet_found p (s : string) (i : Z) t (row : Row) :
  reachable p -> parse_int s = Some i ->
  files (world p) !! default_db_path = Some t ->
  find (fun r => row_id r =? i) (rows t) = Some row ->
  exists w',
    get_character_sheet s (world p)
    = (Ok (sheet_text (character_of_row row)), w').
Proof.
  intros Hr Hs Ht Hf. pose proof (reachable_handles_inv p Hr) as Hi.
  assert (Hg : forall d, _global_db (world p) = Some d ->
                         exists c, handle_ok (world p) d c)
    by (intros d; apply handles_inv_resource; exact Hi).
  rewrite (get_character_sheet_cases s _ t Hg (after_get_db_files_ok _ _ Ht)).
  rewrite Hs, Hf. eauto.
Qed.

End StoreMore.

(* ===================================================================== *)
(** * The further properties at concrete inputs *)
(* ===================================================================== *)

Lemma attack_roll_ordinary_roll_witness :
  fst (randint 1 20 [4; 7; 9]) <> 1 /\ fst (randint 1 20 [4; 7; 9]) <> 20 /\
  let d := fst (randint 1 20 [4; 7; 9]) in
  let g1 := snd (randint 1 20 [4; 7; 9]) in
  (d + 5 < 3 ->
   attack_roll 5 3 "1d8" 2 [4; 7; 9]
   = (Ok (mkAttackResult false (d + 5) None false
            ("Miss! " +:+ attack_line d 5 3)), g1)) /\
  (3 <= d + 5 ->
   forall r g2, roll_dice "1d8" 2 g1 = (Ok r, g2) ->
   attack_roll 5 3 "1d8" 2 [4; 7; 9]
   = (Ok (mkAttackResult true (d + 5) (Some (total r)) false
            ("Hit! " +:+ attack_line d 5 3 +:+ " Damage: "
               +:+ str_of_int (total r))), g2)).
Proof.
  assert (H1 : fst (randint 1 20 [4; 7; 9]) <> 1) by (vm_compute; discriminate).
  assert (H20 : fst (randint 1 20 [4; 7; 9]) <> 20)
    by (vm_compute; discriminate).
  split; [exact H1|]. split; [exact H20|].
  exact (attack_roll_ordinary_roll 5 3 "1d8" 2 [4; 7; 9] H1 H20).
Defined.

Lemma attack_roll_result_invariants_witness :
  attack_roll 5 3 "1d8" 2 [4; 7; 9] = (Ok sample_hit, [9]) /\
  let d := fst (randint 1 20 [4; 7; 9]) in
  attack_total_of sample_hit = d + 5 /\
  1 + 5 <= attack_total_of sample_hit <= 20 + 5 /\
  (critical sample_hit = true <-> d = 20) /\
  (critical sample_hit = true -> hit sample_hit = true) /\
  (is_Some (damage sample_hit) <-> hit sample_hit = true /\ d <> 1).
Proof.
  split; [reflexivity|].
  exact (attack_roll_result_invariants 5 3 "1d8" 2 [4; 7; 9] [9] sample_hit
           eq_refl).
Defined.

Lemma attack_roll_bad_dice_iff_witness :
  rejected_notation "abc" /\
  let d := fst (randint 1 20 [19]) in
  (exists e g', attack_roll 5 3 "abc" 2 [19] = (Raise e, g')) <->
  (d = 20 \/ (3 <= d + 5 /\ d <> 1)).
Proof.
  assert (Hr : rejected_notation "abc")
    by (apply rej_parts; vm_compute; discriminate).
  split; [exact Hr|].
  exact (attack_roll_bad_dice_iff 5 3 "abc" 2 [19] Hr).
Defined.

Lemma attack_roll_damage_bounds_witness :
  1 <= 1 <= 20 /\ 1 <= 8 /\
  exists a g',
    attack_roll 5 30 (notation 1 8) 2 [19; 7; 9] = (Ok a, g') /\
    forall x, damage a = Some x ->
      if critical a then 2 * 1 + 2 <= x <= 2 * (1 * 8) + 2
      else 1 + 2 <= x <= 1 * 8 + 2.
Proof.
  split; [lia|]. split; [lia|].
  apply (attack_roll_damage_bounds 5 30 1 8 2 [19; 7; 9]); lia.
Defined.

Lemma attack_roll_ac_extremes_witness :
  attack_roll 5 3 "1d8" 2 [4; 7; 9] = (Ok sample_hit, [9]) /\
  (3 <= 1 + 5 -> hit sample_hit = true) /\
  (20 + 5 < 3 -> (hit sample_hit = true <-> critical sample_hit = true)).
Proof.
  split; [reflexivity|].
  exact (attack_roll_ac_extremes 5 3 "1d8" 2 [4; 7; 9] [9] sample_hit eq_refl).
Defined.

Lemma calculate_modifier_monotone_witness :
  9 <= 10 /\
  calculate_modifier 9 <= calculate_modifier 10 /\
  calculate_modifier (9 + 2) = calculate_modifier 9 + 1.
Proof.
  split; [lia|]. apply (calculate_modifier_monotone 9 10). lia.
Defined.





Lemma keys_unique_started : keys_unique (world started).
Proof.
  apply files_unique_created. intros path t Ht. simpl in Ht.
  rewrite lookup_empty in Ht. discriminate.
Qed.

Lemma step_started_visited : step started visited.
Proof.
  apply (step_get_character_sheet started (mkAppContext 0) "1"
           (Ok "Character 1 not found")); [reflexivity|].
  vm_compute. reflexivity.
Qed.

Lemma step_keeps_keys_unique_witness :
  reachable started /\ keys_unique (world started) /\ step started visited /\
  keys_unique (world visited).
Proof.
  split; [exact reachable_started|]. split; [exact keys_unique_started|].
  split; [exact step_started_visited|].
  exact (step_keeps_keys_unique started visited reachable_started
           keys_unique_started step_started_visited).
Defined.

Lemma reachable_populated : reachable populated.
Proof.
  apply (reach_step started); [exact reachable_started|].
  eapply (step_create_character started (mkAppContext 0) "Test Hero"
            "Fighter" 3 16 14 14 12 13 10); [reflexivity|].
  apply surjective_pairing.
Qed.

Lemma started_handle_ok : handle_ok (world started) 0 0.
Proof. exact (opened_handle_ok (world (boot ∅))). Qed.

Lemma started_table :
  files (world started) !! default_db_path = Some (mkTable [] 0).
Proof. reflexivity. Qed.

Lemma keys_unique_populated : keys_unique (world populated).
Proof.
  unfold populated. cbn [world].
  rewrite (create_character_ok _ 0%nat (mkTable [] 0) _ _ _ _ _ _ _ _ _
             (mkAppContext 0) started_handle_ok started_table).
  cbn [snd].
  apply keys_unique_stored;
    [exact keys_unique_started | exact started_table | reflexivity].
Qed.

Lemma populated_table :
  files (world populated) !! default_db_path = Some sample_table.
Proof. reflexivity. Qed.

Lemma listed_characters_retrievable_witness :
  reachable populated /\ lifespan populated = Some (mkAppContext 0) /\
  keys_unique (world populated) /\
  exists cs,
    list_characters (db (mkAppContext 0)) (world populated)
      = (Ok cs, world populated) /\
    forall ch, In ch cs ->
      exists i, id ch = Some i /\
                get_character (db (mkAppContext 0)) i (world populated)
                = (Ok (Some ch), world populated).
Proof.
  split; [exact reachable_populated|]. split; [reflexivity|].
  split; [exact keys_unique_populated|].
  exact (listed_characters_retrievable populated (mkAppContext 0)
           reachable_populated eq_refl keys_unique_populated).
Defined.


Lemma list_all_characters_text_witness :
  reachable populated /\
  exists text w' cs,
    list_all_characters (world populated) = (Ok text, w') /\
    list_characters (resource_ref (world populated)) w' = (Ok cs, w') /\
    (cs = [] -> text = "No characters found.") /\
    (cs <> [] ->
     text = "# All Characters" +:+ nl +:+ nl +:+ join (map character_line cs)).
Proof.
  split; [exact reachable_populated|].
  exact (list_all_characters_text populated reachable_populated).
Defined.

Lemma resource_reads_keep_characters_witness :
  reachable populated /\ lifespan populated = Some (mkAppContext 0) /\
  fst (get_character (db (mkAppContext 0)) 1
         (snd (get_character_sheet "1" (world populated))))
  = fst (get_character (db (mkAppContext 0)) 1 (world populated)) /\
  fst (get_character (db (mkAppContext 0)) 1
         (snd (list_all_characters (world populated))))
  = fst (get_character (db (mkAppContext 0)) 1 (world populated)).
Proof.
  split; [exact reachable_populated|]. split; [reflexivity|].
  exact (resource_reads_keep_characters populated (mkAppContext 0) "1" 1
           reachable_populated eq_refl).
Defined.

Lemma tool_handle_closed_after_shutdown_witness :
  reachable visited /\ lifespan visited = Some (mkAppContext 0) /\
  let w' := snd (app_lifespan_exit (mkAppContext 0) (world visited)) in
  let closed := Exn ProgrammingError "Cannot operate on a closed database." in
  app_lifespan_exit (mkAppContext 0) (world visited) = (Ok tt, w') /\
  get_character (db (mkAppContext 0)) 1 w' = (Raise closed, w') /\
  save_character (db (mkAppContext 0)) (character_of_row sample_row) w'
    = (Raise closed, w') /\
  forall d, _global_db w' = Some d -> exists c, handle_ok w' d c.
Proof.
  split; [exact reachable_visited|]. split; [reflexivity|].
  exact (tool_handle_closed_after_shutdown visited (mkAppContext 0) 1
           (character_of_row sample_row) reachable_visited eq_refl).
Defined.

Lemma get_character_sheet_found_witness :
  reachable populated /\ parse_int " +1 " = Some 1 /\
  files (world populated) !! default_db_path = Some sample_table /\
  find (fun r => row_id r =? 1) (rows sample_table) = Some sample_row /\
  exists w',
    get_character_sheet " +1 " (world populated)
    = (Ok (sheet_text (character_of_row sample_row)), w').
Proof.
  split; [exact reachable_populated|]. split; [reflexivity|].
  split; [exact populated_table|]. split; [reflexivity|].
  exact (get_character_sheet_found populated " +1 " 1 sample_table sample_row
           reachable_populated eq_refl populated_table eq_refl).
Defined.
